(** * SimpleLang compiler: lexer, parser and code generator of [main.cpp]

    A shallow embedding of the translation pipeline of [main.cpp]
    (tokenize, the recursive-descent parser, printAST, generateAssembly and
    main) together with the properties of it that the specification states.

    Conventions of the embedding.
    - A C++ call either returns, throws [runtime_error], or steps outside
      defined behaviour (an index outside a vector or string, a signed
      overflow).  The type [Outcome] keeps the three apart; a fourth
      constructor, [NoFuel], is the iteration bound of the model's loops.
      tokenize and parseProgram set the bound themselves and are shown
      never to reach it ([tokenize_lex], [parseProgram_outcome]);
      generateAssembly is structural and needs none.
    - Global and static variables ([pos], [tokens], [labelCounter]) and the
      symbol table passed by reference are threaded explicitly.
    - [cout << ... << endl] appends one line; the code generator returns the
      lines it wrote, in order. *)

From Stdlib Require Import ZArith Ascii String List Lia.
From stdpp Require Import base decidable option list strings gmap pretty.

(* ================================================================= *)
(** ** Outcomes of a call *)

Inductive Outcome (A : Type) : Type :=
| Done (a : A)           (* the call returns [a] *)
| Raise (msg : string)   (* throw runtime_error(msg) *)
| Undefined              (* undefined behaviour: access out of range, signed overflow *)
| NoFuel.                (* iteration bound of the model reached *)

Arguments Done {A} a.
Arguments Raise {A} msg.
Arguments Undefined {A}.
Arguments NoFuel {A}.

#[global] Instance outcome_ret : MRet Outcome := λ A a, Done a.

#[global] Instance outcome_bind : MBind Outcome := λ A B k m,
  match m with
  | Done a => k a
  | Raise msg => Raise msg
  | Undefined => Undefined
  | NoFuel => NoFuel
  end.

(* ================================================================= *)
(** ** Tokens and AST nodes *)

Inductive TokenType : Type :=
| ASSIGN_OP | PLUS_OP | MINUS_OP | SEMICOLON | LBRACE | RBRACE | LPAREN
| RPAREN | EQ_OP | UNKNOWN | INT_KEYWORD | IF_KEYWORD | IDENTIFIER | NUMBER.

#[global] Instance TokenType_eq_dec : EqDecision TokenType.
Proof. solve_decision. Defined.

Record Token : Type := mkToken { type : TokenType; value : string }.

#[global] Instance Token_eq_dec : EqDecision Token.
Proof. solve_decision. Defined.

(** [struct ASTNode { string value; vector<ASTNode> children; }] *)
Unset Elimination Schemes.
Inductive ASTNode : Type :=
| Node (node_value : string) (children : list ASTNode).
Set Elimination Schemes.

Definition node_value (n : ASTNode) : string :=
  match n with Node v _ => v end.

Definition children (n : ASTNode) : list ASTNode :=
  match n with Node _ cs => cs end.

(* ================================================================= *)
(** ** Character classes ([<cctype>], "C" locale)

    A [char] is a byte.  In the "C" locale the bytes above 127 belong to
    none of the classes below. *)

Definition char_code (c : ascii) : nat := nat_of_ascii c.

(** space, \t, \n, \v, \f, \r *)
Definition isspace (c : ascii) : bool :=
  let n := char_code c in
  ((n =? 32) || ((9 <=? n) && (n <=? 13))).

Definition isalpha (c : ascii) : bool :=
  let n := char_code c in
  (((65 <=? n) && (n <=? 90)) || ((97 <=? n) && (n <=? 122))).

Definition isdigit (c : ascii) : bool :=
  let n := char_code c in
  ((48 <=? n) && (n <=? 57)).

(** The characters for which tokenize has a branch of their own. *)
Definition is_punct (c : ascii) : bool :=
  match c with
  | "=" | "+" | "-" | ";" | "{" | "}" | "(" | ")" => true
  | _ => false
  end%char.

(** The characters that reach the final [else] of tokenize. *)
Definition is_other (c : ascii) : bool :=
  negb (isspace c || is_punct c || isalpha c || isdigit c).

(* ================================================================= *)
(** ** The lexer *)

(** [source[pos]] on a [std::string]: defined for [pos <= size()], where
    [source[size()]] is the terminating null character. *)
Definition char_at (source : string) (pos : nat) : Outcome ascii :=
  match String.get pos source with
  | Some c => Done c
  | None => if (pos =? String.length source) then Done "000"%char
            else Undefined
  end.

(** [while (p(source[pos])) result += source[pos++];] *)
Fixpoint scan_while (p : ascii → bool) (source : string)
    (fuel pos : nat) (result : string) : Outcome (nat * string) :=
  match fuel with
  | O => NoFuel
  | S fuel' =>
      c ← char_at source pos;
      if p c then scan_while p source fuel' (S pos) (result +:+ String c "")
      else Done (pos, result)
  end.

Definition word_token (result : string) : Token :=
  if String.eqb result "int" then mkToken INT_KEYWORD result
  else if String.eqb result "if" then mkToken IF_KEYWORD result
  else mkToken IDENTIFIER result.

(** One iteration of the [for] loop of tokenize, without its [++pos]:
    returns the value of [pos] at the end of the body and the tokens. *)
Definition tokenize_body (source : string) (pos : nat) (tokens : list Token)
    : Outcome (nat * list Token) :=
  current ← char_at source pos;
  if isspace current then Done (pos, tokens)
  else if Ascii.eqb current "=" then
    next ← char_at source (pos + 1);
    if Ascii.eqb next "=" then Done ((pos + 1), tokens ++ [mkToken EQ_OP "=="])
    else Done (pos, tokens ++ [mkToken ASSIGN_OP "="])
  else if Ascii.eqb current "+" then Done (pos, tokens ++ [mkToken PLUS_OP "+"])
  else if Ascii.eqb current "-" then Done (pos, tokens ++ [mkToken MINUS_OP "-"])
  else if Ascii.eqb current ";" then Done (pos, tokens ++ [mkToken SEMICOLON ";"])
  else if Ascii.eqb current "{" then Done (pos, tokens ++ [mkToken LBRACE "{"])
  else if Ascii.eqb current "}" then Done (pos, tokens ++ [mkToken RBRACE "}"])
  else if Ascii.eqb current "(" then Done (pos, tokens ++ [mkToken LPAREN "("])
  else if Ascii.eqb current ")" then Done (pos, tokens ++ [mkToken RPAREN ")"])
  else if isalpha current then
    '(pos', result) ← scan_while isalpha source (S (String.length source)) pos "";
    Done ((pos' - 1), tokens ++ [word_token result])
  else if isdigit current then
    '(pos', number) ← scan_while isdigit source (S (String.length source)) pos "";
    Done ((pos' - 1), tokens ++ [mkToken NUMBER number])
  else Done (pos, tokens ++ [mkToken UNKNOWN (String current "")]).

(** [for (size_t pos = 0; pos < source.size(); ++pos) { ... }] *)
Fixpoint tokenize_loop (source : string) (fuel pos : nat)
    (tokens : list Token) : Outcome (list Token) :=
  if (pos <? String.length source) then
    match fuel with
    | O => NoFuel
    | S fuel' =>
        '(pos', tokens') ← tokenize_body source pos tokens;
        tokenize_loop source fuel' (S pos') tokens'
    end
  else Done tokens.

Definition tokenize (source : string) : Outcome (list Token) :=
  tokenize_loop source (String.length source) 0 [].


(* ================================================================= *)
(** ** The parser

    The globals [pos] and [tokens] of the source: [tokens] is fixed during a
    parse and is a section variable; the cursor [pos] is the state of the
    [Parser] monad.  [tokens[pos]] is a [std::vector] access, undefined
    outside the vector. *)

Definition Parser (A : Type) : Type := nat → Outcome (A * nat).

#[global] Instance parser_ret : MRet Parser := λ A a pos, Done (a, pos).

#[global] Instance parser_bind : MBind Parser := λ A B k m pos,
  match m pos with
  | Done (a, pos') => k a pos'
  | Raise msg => Raise msg
  | Undefined => Undefined
  | NoFuel => NoFuel
  end.

Definition throw {A : Type} (msg : string) : Parser A := λ _, Raise msg.

Definition no_fuel {A : Type} : Parser A := λ _, NoFuel.

Section parser.
Variable tokens : list Token.

(** [tokens[pos]] *)
Definition token_at_pos : Parser Token := λ pos,
  match tokens !! pos with
  | Some t => Done (t, pos)
  | None => Undefined
  end.

(** [tokens[pos++]] *)
Definition token_at_pos_incr : Parser Token := λ pos,
  match tokens !! pos with
  | Some t => Done (t, S pos)
  | None => Undefined
  end.

Definition consume (ty : TokenType) : Parser Token :=
  t ← token_at_pos;
  if decide (type t = ty) then token_at_pos_incr
  else throw "Unexpected token".

Definition parseIdentifier : Parser ASTNode :=
  identifier ← consume IDENTIFIER;
  mret (Node "Identifier" [Node (value identifier) []]).

Definition parseDeclaration : Parser ASTNode :=
  _ ← consume INT_KEYWORD;
  identifier ← consume IDENTIFIER;
  _ ← consume SEMICOLON;
  mret (Node "Declaration" [Node "Identifier" [Node (value identifier) []]]).

Definition parseTerm : Parser ASTNode :=
  t ← token_at_pos;
  if decide (type t = NUMBER) then
    number ← consume NUMBER;
    mret (Node "Number" [Node (value number) []])
  else
    t ← token_at_pos;
    if decide (type t = IDENTIFIER) then parseIdentifier
    else throw "Expected term".

Definition parseExpression : Parser ASTNode :=
  left ← parseTerm;
  t ← token_at_pos;
  if decide (type t = PLUS_OP ∨ type t = MINUS_OP) then
    t ← token_at_pos;
    op ← consume (type t);
    right ← parseTerm;
    mret (Node (value op) [left; right])
  else mret left.

Definition parseAssignment : Parser ASTNode :=
  identifier ← consume IDENTIFIER;
  _ ← consume ASSIGN_OP;
  expr ← parseExpression;
  _ ← consume SEMICOLON;
  mret (Node "Assignment" [Node "Identifier" [Node (value identifier) []]; expr]).

Definition parseCondition : Parser ASTNode :=
  left ← parseTerm;
  _ ← consume EQ_OP;
  right ← parseTerm;
  mret (Node "==" [left; right]).

(** parseIfStatement and parseStatement call each other.  The recursive
    call is the parameter [parseStatement] here; the knot is tied below. *)
Section if_statement.
Variable parseStatement : Parser ASTNode.

(** [while (tokens[pos].type != RBRACE) body.push_back(parseStatement());] *)
Fixpoint parseBody (fuel : nat) (body : list ASTNode)
    : Parser (list ASTNode) :=
  t ← token_at_pos;
  if decide (type t ≠ RBRACE) then
    match fuel with
    | O => no_fuel
    | S fuel' =>
        stmt ← parseStatement;
        parseBody fuel' (body ++ [stmt])
    end
  else mret body.

Definition parseIfStatement (fuel : nat) : Parser ASTNode :=
  _ ← consume IF_KEYWORD;
  _ ← consume LPAREN;
  condition ← parseCondition;
  _ ← consume RPAREN;
  _ ← consume LBRACE;
  body ← parseBody fuel [];
  _ ← consume RBRACE;
  mret (Node "If" [condition; Node "Body" body]).
End if_statement.

Fixpoint parseStatement (fuel : nat) : Parser ASTNode :=
  match fuel with
  | O => no_fuel
  | S fuel' =>
      t ← token_at_pos;
      if decide (type t = INT_KEYWORD) then parseDeclaration
      else
        t ← token_at_pos;
        if decide (type t = IF_KEYWORD) then
          parseIfStatement (parseStatement fuel') fuel'
        else parseAssignment
  end.

(** [while (pos < tokens.size()) root.children.push_back(parseStatement());] *)
Fixpoint parseProgram_loop (fuel : nat) (root_children : list ASTNode)
    : Parser ASTNode := λ pos,
  if (pos <? length tokens) then
    match fuel with
    | O => NoFuel
    | S fuel' =>
        (stmt ← parseStatement (length tokens);
         parseProgram_loop fuel' (root_children ++ [stmt])) pos
    end
  else Done (Node "Program" root_children, pos).
End parser.

(** parseProgram as main calls it: the cursor is at 0.  Every statement
    consumes a token, so [length tokens] iterations and nesting levels are
    enough (see [parseProgram_fuel]). *)
Definition parseProgram (tokens : list Token) : Outcome ASTNode :=
  '(root, _) ← parseProgram_loop tokens (length tokens) [] 0;
  Done root.

(* ================================================================= *)
(** ** The printer *)

Definition endl : string := String "010"%char "".

(** [for (int i = 0; i < level; ++i) cout << "  ";] *)
Fixpoint indent (level : nat) : string :=
  match level with
  | O => ""
  | S level' => "  " +:+ indent level'
  end.

Fixpoint printAST (node : ASTNode) (level : nat) : string :=
  match node with
  | Node value children =>
      indent level +:+ value +:+ endl +:+
      (fix each (l : list ASTNode) : string :=
         match l with
         | [] => ""
         | child :: rest => printAST child (S level) +:+ each rest
         end) children
  end.

(* ================================================================= *)
(** ** The code generator

    State of a generation run: the symbol table ([unordered_map<string,
    int>&]) and the function-local [static int labelCounter].  A [Gen]
    computation also returns the lines it wrote to [cout]. *)

Record GenState : Type := mkGenState {
  symbolTable : gmap string Z;
  labelCounter : Z
}.

Definition Gen (A : Type) : Type :=
  GenState → Outcome (A * GenState * list string).

#[global] Instance gen_ret : MRet Gen := λ A a st, Done (a, st, []).

#[global] Instance gen_bind : MBind Gen := λ A B k m st,
  match m st with
  | Done (a, st', lines) =>
      match k a st' with
      | Done (b, st'', lines') => Done (b, st'', lines ++ lines')
      | Raise msg => Raise msg
      | Undefined => Undefined
      | NoFuel => NoFuel
      end
  | Raise msg => Raise msg
  | Undefined => Undefined
  | NoFuel => NoFuel
  end.

(** [cout << line << endl] *)
Definition emit (line : string) : Gen unit := λ st, Done (tt, st, [line]).

Definition undefined {A : Type} : Gen A := λ _, Undefined.

(** [symbolTable[varName] = 0] *)
Definition declare (varName : string) : Gen unit := λ st,
  Done (tt, mkGenState (<[varName := 0%Z]> (symbolTable st)) (labelCounter st), []).

Definition INT_MAX : Z := 2147483647%Z.

(** [int label = labelCounter++;] on an [int]: the increment of [INT_MAX]
    overflows. *)
Definition fresh_label : Gen Z := λ st,
  if decide (labelCounter st = INT_MAX) then Undefined
  else Done (labelCounter st,
             mkGenState (symbolTable st) (labelCounter st + 1)%Z, []).

(** [for (const auto &child : l) gen(child);] *)
Definition for_each (gen : ASTNode → Gen unit) : list ASTNode → Gen unit :=
  fix each (l : list ASTNode) : Gen unit :=
    match l with
    | [] => mret tt
    | child :: rest => _ ← gen child; each rest
    end.

(** [n.children[0].value], the text under an Identifier or Number node. *)
Definition leaf_text (n : ASTNode) : Outcome string :=
  match children n with
  | Node text _ :: _ => Done text
  | [] => Undefined
  end.

Definition lift {A : Type} (o : Outcome A) : Gen A := λ st,
  a ← o; Done (a, st, []).

Fixpoint generateAssembly (node : ASTNode) : Gen unit :=
  match node with
  | Node value children =>
    if String.eqb value "Program" then
      for_each generateAssembly children
    else if String.eqb value "Declaration" then
      match children with
      | Node _ (Node varName _ :: _) :: _ => declare varName
      | _ => undefined
      end
    else if String.eqb value "Assignment" then
      match children with
      | Node _ (Node varName _ :: _) :: expr :: _ =>
          _ ← (if String.eqb (node_value expr) "Number" then
                 text ← lift (leaf_text expr);
                 emit ("  MVI A, " +:+ text)
               else if String.eqb (node_value expr) "+" then
                 match expr with
                 | Node _ (left_ :: right_ :: _) =>
                     _ ← (if String.eqb (node_value left_) "Identifier" then
                            text ← lift (leaf_text left_);
                            emit ("  MOV A, " +:+ text)
                          else
                            text ← lift (leaf_text left_);
                            emit ("  MVI A, " +:+ text));
                     if String.eqb (node_value right_) "Identifier" then
                       text ← lift (leaf_text right_);
                       emit ("  ADD " +:+ text)
                     else
                       text ← lift (leaf_text right_);
                       emit ("  ADI " +:+ text)
                 | _ => undefined
                 end
               else mret tt);
          emit ("  STA " +:+ varName)
      | _ => undefined
      end
    else if String.eqb value "If" then
      match children with
      | condition :: Node _ body :: _ =>
          label ← fresh_label;
          _ ← generateAssembly condition;
          _ ← emit ("  JNZ LABEL" +:+ pretty label);
          _ ← for_each generateAssembly body;
          emit ("LABEL" +:+ pretty label +:+ ":")
      | _ => undefined
      end
    else if String.eqb value "==" then
      match children with
      | Node _ (Node leftVar _ :: _) :: Node _ (Node rightVal _ :: _) :: _ =>
          _ ← emit ("  MOV A, " +:+ leftVar);
          emit ("  CPI " +:+ rightVal)
      | _ => undefined
      end
    else mret tt
  end.

(* ================================================================= *)
(** ** main

    The file is given by the lines [getline] reads from it, or [None] when
    it cannot be opened.  A run ends with what it wrote to [cout] and
    [cerr] and with the value main returns. *)

Record Run : Type := mkRun {
  stdout : string;
  stderr : string;
  exit_code : Z
}.

Definition lines_text (lines : list string) : string :=
  fold_right (λ line rest, line +:+ endl +:+ rest) "" lines.

Definition read_source (file : option (list string)) : string * string :=
  match file with
  | Some lines => (fold_left String.append lines "", "")
  | None => ("", "Can't open the input file.")
  end.

Definition initial_state : GenState := mkGenState ∅ 0%Z.

Definition main (file : option (list string)) : Outcome Run :=
  let '(source, out0) := read_source file in
  tokens ← tokenize source;
  match parseProgram tokens with
  | Done root =>
      '(_, _, lines) ← generateAssembly root initial_state;
      Done (mkRun (out0 +:+ printAST root 0 +:+ endl +:+ "Assembly Code:"
                   +:+ endl +:+ lines_text lines) "" 0%Z)
  | Raise msg => Done (mkRun out0 ("Error: " +:+ msg +:+ endl) 0%Z)
  | Undefined => Undefined
  | NoFuel => NoFuel
  end.

(* ================================================================= *)
(** * Vocabulary of the specification

    The definitions below are not part of [main.cpp]: they name what the
    statements about it speak of. *)

(** ** A reference lexer

    [lex] restates the loop of tokenize on the list of the characters still
    to be read.  It is used to reason about [tokenize], which is shown to
    return what [lex] computes ([tokenize_lex]). *)

(** The character under the cursor, seen from the rest of the input; the
    terminator when nothing is left. *)
Definition head_char (l : list ascii) : ascii := hd "000"%char l.

(** The longest prefix of [l] whose characters satisfy [p]. *)
Fixpoint run (p : ascii → bool) (l : list ascii) : list ascii :=
  match l with
  | c :: rest => if p c then c :: run p rest else []
  | [] => []
  end.

(** The token (if any) that starts with [c], and how many characters the
    iteration uses. *)
Definition lex_step (c : ascii) (rest : list ascii) : option Token * nat :=
  if isspace c then (None, 1)
  else if Ascii.eqb c "=" then
    if Ascii.eqb (head_char rest) "=" then (Some (mkToken EQ_OP "=="), 2)
    else (Some (mkToken ASSIGN_OP "="), 1)
  else if Ascii.eqb c "+" then (Some (mkToken PLUS_OP "+"), 1)
  else if Ascii.eqb c "-" then (Some (mkToken MINUS_OP "-"), 1)
  else if Ascii.eqb c ";" then (Some (mkToken SEMICOLON ";"), 1)
  else if Ascii.eqb c "{" then (Some (mkToken LBRACE "{"), 1)
  else if Ascii.eqb c "}" then (Some (mkToken RBRACE "}"), 1)
  else if Ascii.eqb c "(" then (Some (mkToken LPAREN "("), 1)
  else if Ascii.eqb c ")" then (Some (mkToken RPAREN ")"), 1)
  else if isalpha c then
    (Some (word_token (string_of_list_ascii (c :: run isalpha rest))),
     S (length (run isalpha rest)))
  else if isdigit c then
    (Some (mkToken NUMBER (string_of_list_ascii (c :: run isdigit rest))),
     S (length (run isdigit rest)))
  else (Some (mkToken UNKNOWN (String c "")), 1).

(** The tokens of the characters [s]; [fuel] bounds the iterations, and
    [length s] of them are enough. *)
Fixpoint lex (fuel : nat) (s : list ascii) : list Token :=
  match fuel, s with
  | S fuel', c :: rest =>
      option_list (lex_step c rest).1 ++ lex fuel' (drop (lex_step c rest).2 s)
  | _, _ => []
  end.

(** ** Token texts and the input *)

(** The texts of the tokens, one after the other. *)
Fixpoint concat_values (tokens : list Token) : string :=
  match tokens with
  | [] => ""
  | t :: rest => value t +:+ concat_values rest
  end.

Definition not_space (c : ascii) : bool := negb (isspace c).

(** The input without the characters tokenize skips. *)
Definition remove_whitespace (source : string) : string :=
  string_of_list_ascii (filter not_space (list_ascii_of_string source)).

(** A reading of the input as a sequence of pieces: a skipped character or
    the text of one token. *)
Inductive Piece : Type :=
| Skipped (c : ascii)
| Lexeme (t : Token).

Definition piece_text (p : Piece) : string :=
  match p with
  | Skipped c => String c ""
  | Lexeme t => value t
  end.

Fixpoint pieces_text (ps : list Piece) : string :=
  match ps with
  | [] => ""
  | p :: rest => piece_text p +:+ pieces_text rest
  end.

Fixpoint lexemes (ps : list Piece) : list Token :=
  match ps with
  | [] => []
  | Skipped _ :: rest => lexemes rest
  | Lexeme t :: rest => t :: lexemes rest
  end.

(** A skipped character is white space; the text of a token is not empty
    and holds no white space. *)
Definition piece_ok (p : Piece) : bool :=
  match p with
  | Skipped c => isspace c
  | Lexeme t =>
      match list_ascii_of_string (value t) with
      | [] => false
      | cs => forallb not_space cs
      end
  end.

(** [s] is not empty and all its characters satisfy [p]. *)
Definition nonempty_all (p : ascii → bool) (s : string) : bool :=
  match list_ascii_of_string s with
  | [] => false
  | cs => forallb p cs
  end.

(** What the text of a token of each kind is. *)
Definition token_ok (t : Token) : bool :=
  match type t with
  | ASSIGN_OP => String.eqb (value t) "="
  | PLUS_OP => String.eqb (value t) "+"
  | MINUS_OP => String.eqb (value t) "-"
  | SEMICOLON => String.eqb (value t) ";"
  | LBRACE => String.eqb (value t) "{"
  | RBRACE => String.eqb (value t) "}"
  | LPAREN => String.eqb (value t) "("
  | RPAREN => String.eqb (value t) ")"
  | EQ_OP => String.eqb (value t) "=="
  | INT_KEYWORD => String.eqb (value t) "int"
  | IF_KEYWORD => String.eqb (value t) "if"
  | IDENTIFIER =>
      negb (String.eqb (value t) "int") && negb (String.eqb (value t) "if")
      && nonempty_all isalpha (value t)
  | NUMBER => nonempty_all isdigit (value t)
  | UNKNOWN =>
      match value t with
      | String c "" => is_other c
      | _ => false
      end
  end.

(** ** The trees the parser builds *)

(** [Number -> text] or [Identifier -> text] *)
Definition is_term (n : ASTNode) : bool :=
  match n with
  | Node tag [Node _ []] =>
      String.eqb tag "Number" || String.eqb tag "Identifier"
  | _ => false
  end.

(** [+ -> term, term] or [- -> term, term] *)
Definition is_binary (n : ASTNode) : bool :=
  match n with
  | Node op [l; r] =>
      (String.eqb op "+" || String.eqb op "-") && is_term l && is_term r
  | _ => false
  end.

Definition is_expression (n : ASTNode) : bool := is_term n || is_binary n.

(** [== -> term, term] *)
Definition is_condition (n : ASTNode) : bool :=
  match n with
  | Node op [l; r] => String.eqb op "==" && is_term l && is_term r
  | _ => false
  end.

(** [Identifier -> text] *)
Definition is_identifier (n : ASTNode) : bool :=
  match n with
  | Node tag [Node _ []] => String.eqb tag "Identifier"
  | _ => false
  end.

(** [Declaration -> identifier], [Assignment -> identifier, expression] or
    [If -> condition, (Body -> statements)] *)
Fixpoint is_statement (n : ASTNode) : bool :=
  match n with
  | Node tag cs =>
      if String.eqb tag "Declaration" then
        match cs with
        | [target] => is_identifier target
        | _ => false
        end
      else if String.eqb tag "Assignment" then
        match cs with
        | [target; expr] => is_identifier target && is_expression expr
        | _ => false
        end
      else if String.eqb tag "If" then
        match cs with
        | [condition; Node body stmts] =>
            is_condition condition && String.eqb body "Body"
            && forallb is_statement stmts
        | _ => false
        end
      else false
  end.

(** [Program -> statements] *)
Definition is_program (n : ASTNode) : bool :=
  match n with
  | Node tag stmts => String.eqb tag "Program" && forallb is_statement stmts
  end.

(** The two messages of the one error kind. *)
Definition parse_error (msg : string) : Prop :=
  msg = "Unexpected token" ∨ msg = "Expected term".

(** ** Postconditions of parsing routines

    [post d Q m pos]: started at [pos], the routine [m] either
    returns a value satisfying [Q] with the cursor advanced by at least
    [d], or throws one of the two parse errors, or reads outside the
    token vector; it does not run out of fuel. *)
Definition post {A : Type} (d : nat) (Q : A → Prop) (m : Parser A)
    (pos : nat) : Prop :=
  match m pos with
  | Done (a, pos') => Q a ∧ pos + d ≤ pos'
  | Raise msg => parse_error msg
  | Undefined => True
  | NoFuel => False
  end.

(** ** Trees *)

(** Induction on trees, with the hypothesis for every child. *)
Fixpoint ASTNode_ind (P : ASTNode → Prop)
    (step : ∀ value children, Forall P children → P (Node value children))
    (n : ASTNode) : P n :=
  match n with
  | Node value children =>
      step value children
        ((fix each (l : list ASTNode) : Forall P l :=
            match l with
            | [] => List.Forall_nil P
            | c :: rest =>
                List.Forall_cons P c rest (ASTNode_ind P step c) (each rest)
            end) children)
  end.

(** The nodes as the parsing routines build them. *)
Definition Identifier_node (name : string) : ASTNode :=
  Node "Identifier" [Node name []].

Definition Number_node (numeral : string) : ASTNode :=
  Node "Number" [Node numeral []].

Definition Assignment_node (target : string) (expr : ASTNode) : ASTNode :=
  Node "Assignment" [Identifier_node target; expr].

Definition Declaration_node (name : string) : ASTNode :=
  Node "Declaration" [Identifier_node name].

Definition If_node (condition : ASTNode) (body : list ASTNode) : ASTNode :=
  Node "If" [condition; Node "Body" body].

(** ** What a traversal allocates and declares *)

Definition sum_over (f : ASTNode → Z) (l : list ASTNode) : Z :=
  fold_right (λ s acc, (f s + acc)%Z) 0%Z l.

(** The number of If nodes among the statements generateAssembly visits. *)
Fixpoint if_statements (n : ASTNode) : Z :=
  match n with
  | Node tag cs =>
      if String.eqb tag "Program" then sum_over if_statements cs
      else if String.eqb tag "If" then
        match cs with
        | _ :: Node _ body :: _ => (1 + sum_over if_statements body)%Z
        | _ => 0%Z
        end
      else 0%Z
  end.

(** The names of the Declaration nodes generateAssembly visits, in order. *)
Fixpoint declared (n : ASTNode) : list string :=
  match n with
  | Node tag cs =>
      if String.eqb tag "Program" then concat (map declared cs)
      else if String.eqb tag "Declaration" then
        match cs with
        | Node _ (Node varName _ :: _) :: _ => [varName]
        | _ => []
        end
      else if String.eqb tag "If" then
        match cs with
        | _ :: Node _ body :: _ => concat (map declared body)
        | _ => []
        end
      else []
  end.

(** The table after [symbolTable[name] = 0] for each of [names]. *)
Definition declare_names (names : list string) (table : gmap string Z)
    : gmap string Z :=
  fold_left (λ t name, <[name := 0%Z]> t) names table.

(** ** Lines of a listing *)

(** The line that defines label [k]. *)
Definition label_line (k : Z) : string := "LABEL" +:+ pretty k +:+ ":".

(** A line that starts with [LABEL]. *)
Definition is_label_line (line : string) : bool :=
  match line with
  | String "L" (String "A" (String "B" (String "E" (String "L" _)))) => true
  | _ => false
  end.

(** The lines of a listing that start with [LABEL], in order. *)
Definition label_lines (lines : list string) : list string :=
  List.filter is_label_line lines.

(** The label lines of [lines] are pairwise different, they are
    definitions of labels numbered from [c] up to, not including, [c'], and
    there are [c' - c] of them: each of these labels is defined once. *)
Definition labels_in (c c' : Z) (lines : list string) : Prop :=
  (∀ l, In l (label_lines lines) → ∃ k, (c ≤ k < c')%Z ∧ l = label_line k) ∧
  List.NoDup (label_lines lines) ∧
  Z.of_nat (length (label_lines lines)) = (c' - c)%Z.

(** The line for the first and for the second operand of [+], by the kind
    of the operand. *)
Definition first_operand_line (is_identifier : bool) (text : string) : string :=
  if is_identifier then "  MOV A, " +:+ text else "  MVI A, " +:+ text.

Definition second_operand_line (is_identifier : bool) (text : string) : string :=
  if is_identifier then "  ADD " +:+ text else "  ADI " +:+ text.

Definition operand_node (is_identifier : bool) (text : string) : ASTNode :=
  if is_identifier then Identifier_node text else Number_node text.

(** [gen_ok g names k]: from any table and from any counter [c] that leaves
    room for [k] labels, [g] returns; it adds [names] to the table,
    allocates the labels [c .. c + k - 1], and writes lines that depend on
    [c] but not on the table. *)
Definition gen_ok (g : Gen unit) (names : list string) (k : Z) : Prop :=
  ∀ c, (c + k ≤ INT_MAX)%Z →
    ∃ lines,
      labels_in c (c + k) lines ∧
      ∀ table,
        g (mkGenState table c) =
        Done (tt, mkGenState (declare_names names table) (c + k), lines).

(** The lines main writes after the header of the assembly section. *)
Definition assembly_listing (source : string) : Outcome (list string) :=
  tokens ← tokenize source;
  root ← parseProgram tokens;
  '(_, _, lines) ← generateAssembly root initial_state;
  Done lines.

(* ================================================================= *)
(** * Vocabulary of the further properties *)

(** ** Texts of token sequences *)

(** A character at which tokenize starts afresh whatever comes before it:
    it continues neither a run of letters or digits nor a [==]. *)
Definition is_boundary (c : ascii) : bool :=
  negb (isalpha c) && negb (isdigit c) && negb (Ascii.eqb c "=").

(** The texts of the tokens, each followed by one space. *)
Fixpoint join_tokens (tokens : list Token) : string :=
  match tokens with
  | [] => ""
  | t :: rest => value t +:+ " " +:+ join_tokens rest
  end.

(** ** The tokens of a tree *)

(** The token of a term node: its leaf text as a number or as an
    identifier. *)
Definition term_tokens (n : ASTNode) : list Token :=
  match n with
  | Node tag (Node text _ :: _) =>
      [mkToken (if String.eqb tag "Number" then NUMBER else IDENTIFIER) text]
  | _ => []
  end.

Definition operator_token (op : string) : Token :=
  mkToken (if String.eqb op "+" then PLUS_OP else MINUS_OP) op.

Definition expression_tokens (n : ASTNode) : list Token :=
  match n with
  | Node op [l; r] => term_tokens l ++ operator_token op :: term_tokens r
  | _ => term_tokens n
  end.

Definition condition_tokens (n : ASTNode) : list Token :=
  match n with
  | Node _ [l; r] => term_tokens l ++ mkToken EQ_OP "==" :: term_tokens r
  | _ => []
  end.

(** The tokens of the concrete syntax of a statement, by the grammar
    [int x ;], [x = e ;] and [if ( c ) { statements }]. *)
Fixpoint statement_tokens (n : ASTNode) : list Token :=
  match n with
  | Node tag cs =>
      if String.eqb tag "Declaration" then
        match cs with
        | [target] =>
            mkToken INT_KEYWORD "int" :: term_tokens target
            ++ [mkToken SEMICOLON ";"]
        | _ => []
        end
      else if String.eqb tag "Assignment" then
        match cs with
        | [target; expr] =>
            term_tokens target ++ mkToken ASSIGN_OP "="
            :: expression_tokens expr ++ [mkToken SEMICOLON ";"]
        | _ => []
        end
      else if String.eqb tag "If" then
        match cs with
        | [condition; Node _ stmts] =>
            mkToken IF_KEYWORD "if" :: mkToken LPAREN "("
            :: condition_tokens condition
            ++ mkToken RPAREN ")" :: mkToken LBRACE "{"
            :: concat (map statement_tokens stmts)
            ++ [mkToken RBRACE "}"]
        | _ => []
        end
      else []
  end.

Definition statements_tokens (stmts : list ASTNode) : list Token :=
  concat (map statement_tokens stmts).

Definition program_tokens (root : ASTNode) : list Token :=
  statements_tokens (children root).

(** The tokens [ts] stand in [tokens] from position [pos] on. *)
Definition has_at (tokens : list Token) (pos : nat) (ts : list Token) : Prop :=
  ∀ i t, ts !! i = Some t → tokens !! (pos + i) = Some t.

(** A token with which no statement starts. *)
Definition is_stray (t : Token) : bool :=
  match type t with
  | INT_KEYWORD | IF_KEYWORD | IDENTIFIER => false
  | _ => true
  end.

(** Parsing gives the statement [s] back wherever its tokens stand. *)
Definition parses_back (tokens : list Token) (s : ASTNode) : Prop :=
  ∀ pos fuel,
    length (statement_tokens s) ≤ fuel →
    has_at tokens pos (statement_tokens s) →
    parseStatement tokens fuel pos =
    Done (s, pos + length (statement_tokens s)).

(** A routine that, started inside the token vector (the end included),
    returns with the cursor inside it. *)
Definition stays_within (tokens : list Token) {A : Type} (m : Parser A)
    : Prop :=
  ∀ pos a pos',
    pos ≤ length tokens → m pos = Done (a, pos') → pos' ≤ length tokens.

(** ** Generation steps and listings *)

(** A generation step that returns or is undefined but never throws; when
    it returns, the label counter has not decreased and every key of the
    table is still there. *)
Definition gen_sound {A : Type} (g : Gen A) : Prop :=
  ∀ st,
    match g st with
    | Done (_, st', _) =>
        (labelCounter st ≤ labelCounter st')%Z ∧
        ∀ key, is_Some (symbolTable st !! key) →
               is_Some (symbolTable st' !! key)
    | Undefined => True
    | Raise _ | NoFuel => False
    end.

(** The line of the jump to label [k]. *)
Definition jnz_line (k : Z) : string := "  JNZ LABEL" +:+ pretty k.

(** An indented line that is not a jump: the lines of assignments and of
    conditions. *)
Definition is_plain_line (line : string) : bool :=
  match line with
  | String " " (String " " (String c _)) => negb (Ascii.eqb c "J")
  | _ => false
  end.

(** Listings in which jumps and label definitions are nested like
    brackets: a sequence of plain lines and of blocks [JNZ LABELk], a
    nested listing, [LABELk:]. *)
Inductive Block : list string → Prop :=
| Block_nil : Block []
| Block_plain (line : string) (rest : list string) :
    is_plain_line line = true → Block rest → Block (line :: rest)
| Block_if (k : Z) (body rest : list string) :
    Block body → Block rest →
    Block (jnz_line k :: body ++ label_line k :: rest).

(** [gen_lines P g names k]: like [gen_ok], with a property [P] of the
    counter before, the counter after and the lines written in place of
    the statement about label lines. *)
Definition gen_lines (P : Z → Z → list string → Prop) (g : Gen unit)
    (names : list string) (k : Z) : Prop :=
  ∀ c, (c + k ≤ INT_MAX)%Z →
    ∃ lines,
      P c (c + k)%Z lines ∧
      ∀ table,
        g (mkGenState table c) =
        Done (tt, mkGenState (declare_names names table) (c + k), lines).

(** A line that starts with an indented [J]: a jump. *)
Definition is_jnz_line (line : string) : bool :=
  match line with
  | String " " (String " " (String c _)) => Ascii.eqb c "J"
  | _ => false
  end.

(** The jumps of a listing, in order. *)
Definition jump_lines (lines : list string) : list string :=
  List.filter is_jnz_line lines.

(** ** The printed tree *)



(* ================================================================= *)
(** * Properties of the lexer *)

Example tokenize_ex1 :
  tokenize "if (x == 1) { y = 2; }" =
  Done [mkToken IF_KEYWORD "if"; mkToken LPAREN "("; mkToken IDENTIFIER "x";
        mkToken EQ_OP "=="; mkToken NUMBER "1"; mkToken RPAREN ")";
        mkToken LBRACE "{"; mkToken IDENTIFIER "y"; mkToken ASSIGN_OP "=";
        mkToken NUMBER "2"; mkToken SEMICOLON ";"; mkToken RBRACE "}"].
Proof. reflexivity. Qed.

Example tokenize_ex2 :
  tokenize "int x1=@=" =
  Done [mkToken INT_KEYWORD "int"; mkToken IDENTIFIER "x"; mkToken NUMBER "1";
        mkToken ASSIGN_OP "="; mkToken UNKNOWN "@"; mkToken ASSIGN_OP "="].
Proof. reflexivity. Qed.

(** ** Strings as lists of characters *)

Lemma get_lookup (s : string) (pos : nat) :
  String.get pos s = list_ascii_of_string s !! pos.
Proof.
  revert pos. induction s as [|c s IH]; intros [|pos]; simpl; auto.
Qed.

Lemma length_list_ascii (s : string) :
  length (list_ascii_of_string s) = String.length s.
Proof. induction s; simpl; congruence. Qed.

Lemma append_cons (c : ascii) (s1 s2 : string) :
  String c s1 +:+ s2 = String c (s1 +:+ s2).
Proof. reflexivity. Qed.

Lemma append_empty_l (s : string) : "" +:+ s = s.
Proof. reflexivity. Qed.

Lemma list_ascii_app (s1 s2 : string) :
  list_ascii_of_string (s1 +:+ s2) =
  list_ascii_of_string s1 ++ list_ascii_of_string s2.
Proof.
  induction s1 as [|c s1 IH]; [done|].
  rewrite append_cons. simpl. by rewrite IH.
Qed.

Lemma string_of_list_app (l1 l2 : list ascii) :
  string_of_list_ascii (l1 ++ l2) =
  string_of_list_ascii l1 +:+ string_of_list_ascii l2.
Proof.
  induction l1 as [|c l1 IH]; [done|].
  simpl. by rewrite append_cons, IH.
Qed.

Lemma append_empty_r (s : string) : s +:+ "" = s.
Proof.
  induction s as [|c s IH]; [done|]. by rewrite append_cons, IH.
Qed.

Lemma append_assoc (s1 s2 s3 : string) :
  (s1 +:+ s2) +:+ s3 = s1 +:+ (s2 +:+ s3).
Proof.
  induction s1 as [|c s1 IH]; [done|]. by rewrite !append_cons, IH.
Qed.

Lemma char_at_drop (source : string) (pos : nat) :
  pos ≤ String.length source →
  char_at source pos = Done (head_char (drop pos (list_ascii_of_string source))).
Proof.
  intros Hpos. unfold char_at. rewrite get_lookup.
  destruct (list_ascii_of_string source !! pos) as [c|] eqn:E.
  - by rewrite (drop_S _ _ _ E).
  - apply lookup_ge_None in E. rewrite length_list_ascii in E.
    replace pos with (String.length source) by lia.
    rewrite Nat.eqb_refl, <- length_list_ascii, drop_all. done.
Qed.

(** ** tokenize computes the reference lexer *)

Lemma run_length (p : ascii → bool) (l : list ascii) :
  length (run p l) ≤ length l.
Proof. induction l as [|c l IH]; simpl; [lia|]. destruct (p c); simpl; lia. Qed.

Lemma lex_step_bounds (c : ascii) (rest : list ascii) :
  1 ≤ (lex_step c rest).2 ≤ S (length rest).
Proof.
  unfold lex_step.
  repeat (match goal with |- context [if ?b then _ else _] =>
            destruct b eqn:? end; simpl; try lia).
  - destruct rest; simpl in *; [discriminate | lia].
  - pose proof (run_length isalpha rest). lia.
  - pose proof (run_length isdigit rest). lia.
Qed.

Lemma scan_while_run (p : ascii → bool) (source : string) :
  p "000"%char = false →
  ∀ fuel pos result,
    pos ≤ String.length source →
    String.length source - pos < fuel →
    scan_while p source fuel pos result =
    Done (pos + length (run p (drop pos (list_ascii_of_string source))),
          result +:+ string_of_list_ascii
                       (run p (drop pos (list_ascii_of_string source)))).
Proof.
  intros Hp. induction fuel as [|fuel IH]; intros pos result Hpos Hfuel; [lia|].
  simpl. rewrite char_at_drop by done. simpl.
  destruct (drop pos (list_ascii_of_string source)) as [|c rest] eqn:E; simpl.
  - rewrite Hp, append_empty_r. do 2 f_equal. lia.
  - assert (pos < String.length source) as Hlt.
    { rewrite <- length_list_ascii.
      destruct (decide (pos < length (list_ascii_of_string source))); [done|].
      rewrite drop_ge in E by lia. discriminate. }
    assert (drop (S pos) (list_ascii_of_string source) = rest) as E'.
    { replace (S pos) with (pos + 1) by lia. by rewrite <- drop_drop, E. }
    destruct (p c); [|by rewrite Nat.add_0_r, append_empty_r].
    rewrite IH, E' by lia. simpl.
    rewrite append_assoc, append_cons, append_empty_l.
    do 2 f_equal. lia.
Qed.

Lemma tokenize_body_step (source : string) (pos : nat) (tokens : list Token)
    (c : ascii) (rest : list ascii) :
  drop pos (list_ascii_of_string source) = c :: rest →
  tokenize_body source pos tokens =
  Done (pos + (lex_step c rest).2 - 1,
        tokens ++ option_list (lex_step c rest).1).
Proof.
  intros E.
  assert (pos < String.length source) as Hlt.
  { rewrite <- length_list_ascii.
    destruct (decide (pos < length (list_ascii_of_string source))); [done|].
    rewrite drop_ge in E by lia. discriminate. }
  assert (drop (pos + 1) (list_ascii_of_string source) = rest) as E'.
  { by rewrite <- drop_drop, E. }
  unfold tokenize_body, lex_step.
  rewrite (char_at_drop source pos), (char_at_drop source (pos + 1)) by lia.
  rewrite (scan_while_run isalpha source eq_refl (S (String.length source)) pos "")
    by lia.
  rewrite (scan_while_run isdigit source eq_refl (S (String.length source)) pos "")
    by lia.
  rewrite E, E'. simpl.
  destruct (isspace c) eqn:Hsp; simpl.
  { rewrite app_nil_r. do 2 f_equal. lia. }
  destruct (Ascii.eqb c "=") eqn:Heq; simpl.
  { destruct (Ascii.eqb (head_char rest) "="); simpl; do 2 f_equal; lia. }
  repeat (match goal with |- context [if Ascii.eqb c ?x then _ else _] =>
            destruct (Ascii.eqb c x); [simpl; do 2 f_equal; lia|] end).
  destruct (isalpha c) eqn:Hal; simpl.
  { by rewrite append_empty_l. }
  destruct (isdigit c) eqn:Hdi; simpl.
  { by rewrite append_empty_l. }
  do 2 f_equal. lia.
Qed.

Lemma tokenize_loop_lex (source : string) :
  ∀ fuel pos tokens,
    pos ≤ String.length source →
    String.length source - pos ≤ fuel →
    tokenize_loop source fuel pos tokens =
    Done (tokens ++ lex fuel (drop pos (list_ascii_of_string source))).
Proof.
  induction fuel as [|fuel IH]; intros pos tokens Hpos Hfuel.
  - simpl. replace (pos <? String.length source) with false
      by (symmetry; apply Nat.ltb_ge; lia).
    by rewrite app_nil_r.
  - simpl. destruct (pos <? String.length source) eqn:Hlt.
    + apply Nat.ltb_lt in Hlt.
      destruct (drop pos (list_ascii_of_string source)) as [|c rest] eqn:E.
      { apply drop_nil_inv in E. rewrite length_list_ascii in E. lia. }
      rewrite (tokenize_body_step _ _ _ _ _ E). simpl.
      pose proof (lex_step_bounds c rest) as [Hn1 Hn2].
      assert (length rest = String.length source - pos - 1) as Hrest.
      { apply (f_equal length) in E.
        rewrite length_drop, length_list_ascii in E. simpl in E. lia. }
      replace (S (pos + (lex_step c rest).2 - 1))
        with (pos + (lex_step c rest).2) by lia.
      rewrite IH by lia.
      rewrite <- drop_drop, E, <- app_assoc. done.
    + apply Nat.ltb_ge in Hlt.
      rewrite drop_ge by (rewrite length_list_ascii; lia).
      simpl. by rewrite app_nil_r.
Qed.

(** tokenize returns, and its result is that of the reference lexer. *)
Lemma tokenize_lex (source : string) :
  tokenize source =
  Done (lex (String.length source) (list_ascii_of_string source)).
Proof.
  unfold tokenize. rewrite tokenize_loop_lex by lia. by rewrite drop_0.
Qed.

Lemma lex_fuel (s : list ascii) :
  ∀ fuel1 fuel2, length s ≤ fuel1 → length s ≤ fuel2 →
    lex fuel1 s = lex fuel2 s.
Proof.
  intros fuel1. revert s.
  induction fuel1 as [|fuel1 IH]; intros s fuel2 H1 H2.
  - destruct s; simpl in *; [|lia]. by destruct fuel2.
  - destruct s as [|c rest]; [by destruct fuel2|].
    destruct fuel2 as [|fuel2]; simpl in *; [lia|].
    pose proof (lex_step_bounds c rest) as [Hn1 Hn2].
    f_equal. apply IH; rewrite length_drop; simpl; lia.
Qed.

(** ** What the token texts cover *)

Lemma alpha_not_space (c : ascii) : isalpha c = true → not_space c = true.
Proof. destruct c as [[] [] [] [] [] [] [] []]; vm_compute; congruence. Qed.

Lemma digit_not_space (c : ascii) : isdigit c = true → not_space c = true.
Proof. destruct c as [[] [] [] [] [] [] [] []]; vm_compute; congruence. Qed.

Lemma take_run (p : ascii → bool) (l : list ascii) :
  take (length (run p l)) l = run p l.
Proof.
  induction l as [|c l IH]; [done|]. simpl.
  destruct (p c); simpl; [by rewrite IH | done].
Qed.

Lemma run_forallb (p q : ascii → bool) (l : list ascii) :
  (∀ c, p c = true → q c = true) → forallb q (run p l) = true.
Proof.
  intros Hpq. induction l as [|c l IH]; [done|]. simpl.
  destruct (p c) eqn:Hc; [|done]. simpl. by rewrite (Hpq c Hc), IH.
Qed.

Lemma value_word_token (s : string) : value (word_token s) = s.
Proof.
  unfold word_token.
  destruct (String.eqb s "int"); [done|]. by destruct (String.eqb s "if").
Qed.

(** The characters an iteration uses are the skipped white space or the
    text of the token it appends. *)
Lemma lex_step_spec (c : ascii) (rest : list ascii) :
  match (lex_step c rest).1 with
  | None => isspace c = true ∧ (lex_step c rest).2 = 1
  | Some t =>
      list_ascii_of_string (value t) = take (lex_step c rest).2 (c :: rest) ∧
      forallb not_space (take (lex_step c rest).2 (c :: rest)) = true
  end.
Proof.
  unfold lex_step.
  destruct (isspace c) eqn:Hsp; [done|].
  assert (not_space c = true) as Hns by (unfold not_space; by rewrite Hsp).
  destruct (Ascii.eqb c "=") eqn:Heq.
  { apply Ascii.eqb_eq in Heq. subst c.
    destruct (Ascii.eqb (head_char rest) "=") eqn:Hnext; simpl; [|done].
    destruct rest as [|c' rest]; [discriminate|].
    simpl in Hnext. apply Ascii.eqb_eq in Hnext. by subst c'. }
  repeat (match goal with |- context [if Ascii.eqb c ?x then _ else _] =>
            let H := fresh in
            destruct (Ascii.eqb c x) eqn:H;
            [apply Ascii.eqb_eq in H; subst c; done|] end).
  destruct (isalpha c) eqn:Hal.
  { cbn [fst snd]. rewrite value_word_token, list_ascii_of_string_of_list_ascii.
    cbn [take forallb]. rewrite take_run, Hns.
    split; [done|]. apply run_forallb, alpha_not_space. }
  destruct (isdigit c) eqn:Hdi.
  { cbn [fst snd value]. rewrite list_ascii_of_string_of_list_ascii.
    cbn [take forallb]. rewrite take_run, Hns.
    split; [done|]. apply run_forallb, digit_not_space. }
  simpl. by rewrite Hns.
Qed.

Lemma filter_all (l : list ascii) :
  forallb not_space l = true → filter not_space l = l.
Proof.
  induction l as [|c l IH]; [done|]. simpl. intros H.
  apply andb_prop in H as [Hc Hl].
  rewrite filter_cons. destruct (decide (not_space c)) as [|Hn].
  - by rewrite IH.
  - by rewrite Hc in Hn.
Qed.

Lemma concat_values_app (l1 l2 : list Token) :
  concat_values (l1 ++ l2) = concat_values l1 +:+ concat_values l2.
Proof.
  induction l1 as [|t l1 IH]; [done|]. simpl.
  by rewrite IH, append_assoc.
Qed.

(** The texts of the tokens are the input without its white space. *)
Lemma lex_texts :
  ∀ fuel s, length s ≤ fuel →
    list_ascii_of_string (concat_values (lex fuel s)) = filter not_space s.
Proof.
  induction fuel as [|fuel IH]; intros s Hlen.
  - destruct s; simpl in *; [done | lia].
  - destruct s as [|c rest]; [done|]. simpl in Hlen.
    cbn [lex].
    pose proof (lex_step_bounds c rest) as [Hn1 Hn2].
    pose proof (lex_step_spec c rest) as Hspec.
    rewrite concat_values_app, list_ascii_app.
    rewrite IH by (rewrite length_drop; simpl; lia).
    rewrite <- (take_drop (lex_step c rest).2 (c :: rest)) at 2.
    rewrite filter_app. f_equal.
    destruct (lex_step c rest).1 as [t|].
    + destruct Hspec as [Hv Hall]. simpl.
      rewrite append_empty_r, Hv. symmetry. by apply filter_all.
    + destruct Hspec as [Hsp ->]. simpl.
      rewrite filter_cons_False; [done|].
      unfold not_space. rewrite Hsp. simpl. tauto.
Qed.

(** The input splits into skipped white space and token texts. *)
Lemma lex_pieces :
  ∀ fuel s, length s ≤ fuel →
    ∃ ps, pieces_text ps = string_of_list_ascii s ∧
          lexemes ps = lex fuel s ∧
          forallb piece_ok ps = true.
Proof.
  induction fuel as [|fuel IH]; intros s Hlen.
  - destruct s; simpl in *; [|lia]. by exists [].
  - destruct s as [|c rest]; [by exists []|]. simpl in Hlen.
    pose proof (lex_step_bounds c rest) as [Hn1 Hn2].
    pose proof (lex_step_spec c rest) as Hspec.
    destruct (IH (drop (lex_step c rest).2 (c :: rest))) as (ps & Htext & Hlex & Hok).
    { rewrite length_drop; simpl; lia. }
    assert (string_of_list_ascii (c :: rest) =
            string_of_list_ascii (take (lex_step c rest).2 (c :: rest)) +:+
            pieces_text ps) as Hsplit.
    { rewrite Htext, <- string_of_list_app. by rewrite take_drop. }
    cbn [lex].
    destruct (lex_step c rest).1 as [t|].
    + destruct Hspec as [Hv Hall].
      exists (Lexeme t :: ps). cbn [pieces_text lexemes forallb piece_ok piece_text].
      rewrite Hsplit, Hlex, Hok, Hv, <- Hv, string_of_list_ascii_of_string.
      split; [done|]. split; [done|].
      rewrite Hv.
      destruct (take (lex_step c rest).2 (c :: rest)) eqn:Et.
      * destruct (lex_step c rest).2; [lia | discriminate].
      * simpl in *. by rewrite Hall.
    + destruct Hspec as [Hsp Hn]. rewrite Hn in *.
      exists (Skipped c :: ps). cbn [pieces_text lexemes forallb piece_ok piece_text].
      by rewrite Hsplit, Hlex, Hok, Hsp.
Qed.

(** ** Characters without a branch of their own *)

Lemma is_other_classes (x : ascii) :
  is_other x = true →
  isalpha x = false ∧ isdigit x = false ∧ Ascii.eqb x "=" = false.
Proof. destruct x as [[] [] [] [] [] [] [] []]; vm_compute; auto. Qed.

Lemma lex_step_other (x : ascii) (rest : list ascii) :
  is_other x = true →
  lex_step x rest = (Some (mkToken UNKNOWN (String x "")), 1).
Proof.
  destruct x as [[] [] [] [] [] [] [] []]; vm_compute; congruence.
Qed.

Lemma run_app_stop (p : ascii → bool) (l l2 : list ascii) (x : ascii) :
  p x = false → run p (l ++ x :: l2) = run p l.
Proof.
  intros Hx. induction l as [|c l IH]; simpl; [by rewrite Hx|].
  by rewrite IH.
Qed.

(** A character that reaches the final [else] ends whatever is read before
    it: the iterations before it do not depend on it or on what follows. *)
Lemma lex_step_app_other (c x : ascii) (rest s2 : list ascii) :
  is_other x = true →
  lex_step c (rest ++ x :: s2) = lex_step c rest.
Proof.
  intros Hx. apply is_other_classes in Hx as (Hal & Hdi & Heq).
  unfold lex_step. rewrite !run_app_stop by done.
  replace (Ascii.eqb (head_char (rest ++ x :: s2)) "=")
    with (Ascii.eqb (head_char rest) "="); [done|].
  destruct rest; simpl; [by rewrite Heq | done].
Qed.

Lemma lex_app_other (x : ascii) (s2 : list ascii) (k : nat) :
  is_other x = true → length s2 < k →
  ∀ fuel s1, length s1 ≤ fuel →
    lex (fuel + k) (s1 ++ x :: s2) = lex fuel s1 ++ lex k (x :: s2).
Proof.
  intros Hx Hk. induction fuel as [|fuel IH]; intros s1 Hlen.
  - destruct s1; simpl in *; [done | lia].
  - destruct s1 as [|c rest].
    + simpl app. apply lex_fuel; simpl; lia.
    + simpl in Hlen. simpl app. cbn [Nat.add lex].
      rewrite lex_step_app_other by done.
      pose proof (lex_step_bounds c rest) as [Hn1 Hn2].
      rewrite <- app_assoc. f_equal.
      rewrite (app_comm_cons rest (x :: s2) c).
      rewrite drop_app_le by (simpl; lia).
      apply IH. rewrite length_drop. simpl. lia.
Qed.

(** C4: tokenize returns for every input (no access outside the string, no
    error); the texts of its tokens, in order, are the input without its
    white space; the input splits into skipped white-space characters and
    token texts, each text non-empty and free of white space, so that no
    token spans skipped white space; and a character that is not white
    space, punctuation of the language, a letter or a digit becomes an
    UNKNOWN token with that one character, between the tokens of what
    comes before it and of what comes after it. *)
Theorem tokenize_total_and_faithful (source : string) :
  ∃ tokens,
    tokenize source = Done tokens ∧
    concat_values tokens = remove_whitespace source ∧
    (∃ ps, pieces_text ps = source ∧ lexemes ps = tokens ∧
           forallb piece_ok ps = true) ∧
    (∀ s1 c s2,
       source = s1 +:+ String c s2 → is_other c = true →
       ∃ t1 t2, tokenize s1 = Done t1 ∧ tokenize s2 = Done t2 ∧
                tokens = t1 ++ mkToken UNKNOWN (String c "") :: t2).
Proof.
  exists (lex (String.length source) (list_ascii_of_string source)).
  split; [apply tokenize_lex|]. split; [|split].
  - unfold remove_whitespace.
    rewrite <- lex_texts with (fuel := String.length source)
      by (by rewrite length_list_ascii).
    by rewrite string_of_list_ascii_of_string.
  - destruct (lex_pieces (String.length source) (list_ascii_of_string source))
      as (ps & Htext & Hlex & Hok); [by rewrite length_list_ascii|].
    exists ps. by rewrite Htext, string_of_list_ascii_of_string.
  - intros s1 c s2 -> Hc.
    exists (lex (String.length s1) (list_ascii_of_string s1)),
           (lex (String.length s2) (list_ascii_of_string s2)).
    split; [apply tokenize_lex|]. split; [apply tokenize_lex|].
    rewrite list_ascii_app. simpl list_ascii_of_string.
    replace (String.length (s1 +:+ String c s2))
      with (String.length s1 + S (String.length s2)).
    2:{ rewrite <- !length_list_ascii, list_ascii_app, length_app. done. }
    rewrite lex_app_other
      by (rewrite ?length_list_ascii; (done || lia)).
    f_equal. cbn [lex]. rewrite lex_step_other by done. done.
Qed.

Lemma tokenize_total_and_faithful_witness :
  ∃ t1 t2, tokenize "x =" = Done t1 ∧ tokenize " 5" = Done t2 ∧
           tokenize "x =@ 5" = Done (t1 ++ mkToken UNKNOWN "@" :: t2).
Proof.
  destruct (tokenize_total_and_faithful "x =@ 5") as (tokens & Htok & _ & _ & Hunk).
  destruct (Hunk "x =" "@"%char " 5" eq_refl eq_refl) as (t1 & t2 & H1 & H2 & Heq).
  exists t1, t2. rewrite <- Heq. done.
Defined.

(** ** The tokens tokenize produces *)

Lemma run_all (p : ascii → bool) (l : list ascii) : forallb p (run p l) = true.
Proof. by apply run_forallb. Qed.

Lemma lex_step_token_ok (c : ascii) (rest : list ascii) (t : Token) :
  (lex_step c rest).1 = Some t → token_ok t = true.
Proof.
  unfold lex_step.
  destruct (isspace c) eqn:Hsp; [done|].
  destruct (Ascii.eqb c "=") eqn:H1.
  { destruct (Ascii.eqb (head_char rest) "="); intros [= <-]; done. }
  repeat (match goal with |- context [if Ascii.eqb c ?x then _ else _] =>
            let H := fresh in
            destruct (Ascii.eqb c x) eqn:H; [by intros [= <-]|] end).
  destruct (isalpha c) eqn:Hal.
  { intros [= <-]. unfold word_token.
    destruct (String.eqb _ "int") eqn:Hint; [exact Hint|].
    destruct (String.eqb _ "if") eqn:Hif; [exact Hif|].
    unfold token_ok, nonempty_all. cbn [type value].
    rewrite Hint, Hif. cbn [string_of_list_ascii list_ascii_of_string].
    rewrite list_ascii_of_string_of_list_ascii.
    cbn [forallb negb andb]. by rewrite Hal, run_all. }
  destruct (isdigit c) eqn:Hdi.
  { intros [= <-]. unfold token_ok, nonempty_all.
    cbn [type value string_of_list_ascii list_ascii_of_string].
    rewrite list_ascii_of_string_of_list_ascii.
    cbn [forallb]. by rewrite Hdi, run_all. }
  intros [= <-]. unfold token_ok, is_other. cbn [type value].
  rewrite Hsp, Hal, Hdi.
  replace (is_punct c) with false; [done|].
  revert H1 H H0 H2 H3 H4 H5 H6.
  destruct c as [[] [] [] [] [] [] [] []]; vm_compute; congruence.
Qed.

Lemma lex_tokens_ok :
  ∀ fuel s, forallb token_ok (lex fuel s) = true.
Proof.
  induction fuel as [|fuel IH]; intros s; [done|].
  destruct s as [|c rest]; [done|]. cbn [lex].
  rewrite forallb_app, IH, andb_true_r.
  destruct (lex_step c rest).1 as [t|] eqn:Et; [|done].
  simpl. by rewrite (lex_step_token_ok _ _ _ Et).
Qed.

(** Every token of tokenize has the text of its kind. *)
Lemma tokenize_tokens_ok (source : string) (tokens : list Token) :
  tokenize source = Done tokens → forallb token_ok tokens = true.
Proof.
  rewrite tokenize_lex. intros [= <-]. apply lex_tokens_ok.
Qed.

(* ================================================================= *)
(** * Properties of the parser *)

(** ** Rules for postconditions *)

Lemma post_ret {A : Type} (Q : A → Prop) (a : A) (pos : nat) :
  Q a → post 0 Q (mret a) pos.
Proof. intros HQ. unfold post. simpl. split; [done | lia]. Qed.

Lemma post_throw {A : Type} (d : nat) (Q : A → Prop) (msg : string) (pos : nat) :
  parse_error msg → post d Q (throw msg) pos.
Proof. done. Qed.

Lemma post_bind {A B : Type} (d1 d2 d : nat) (P : A → Prop) (Q : B → Prop)
    (m : Parser A) (k : A → Parser B) (pos : nat) :
  d ≤ d1 + d2 →
  post d1 P m pos →
  (∀ a pos1, P a → pos + d1 ≤ pos1 → post d2 Q (k a) pos1) →
  post d Q (m ≫= k) pos.
Proof.
  intros Hd Hm Hk. unfold post, mbind, parser_bind in *.
  destruct (m pos) as [[a pos1]| | |]; try done.
  destruct Hm as [HP Hpos]. specialize (Hk a pos1 HP Hpos).
  destruct (k a pos1) as [[b pos2]| | |]; try done.
  destruct Hk as [HQ Hpos']. split; [done | lia].
Qed.

Lemma post_weaken {A : Type} (d d' : nat) (P Q : A → Prop) (m : Parser A)
    (pos : nat) :
  d' ≤ d → (∀ a, P a → Q a) → post d P m pos → post d' Q m pos.
Proof.
  intros Hd HPQ. unfold post.
  destruct (m pos) as [[a pos1]| | |]; try done.
  intros [HP Hpos]. split; [auto | lia].
Qed.

Section parser_properties.
Variable tokens : list Token.

Lemma post_token_at_pos (pos : nat) :
  post 0 (λ t, tokens !! pos = Some t) (token_at_pos tokens) pos.
Proof.
  unfold post, token_at_pos. destruct (tokens !! pos); [|done].
  split; [done | lia].
Qed.

Lemma post_consume (ty : TokenType) (pos : nat) :
  post 1 (λ t, tokens !! pos = Some t ∧ type t = ty) (consume tokens ty) pos.
Proof.
  unfold post, consume, token_at_pos, token_at_pos_incr, mbind, parser_bind.
  destruct (tokens !! pos) as [t|] eqn:E; [|done].
  destruct (decide (type t = ty)); simpl.
  - rewrite E. split; [done | lia].
  - by left.
Qed.

Lemma post_parseIdentifier (pos : nat) :
  post 1 (λ n, is_identifier n = true) (parseIdentifier tokens) pos.
Proof.
  unfold parseIdentifier.
  eapply (post_bind 1 0); [lia | apply post_consume |].
  intros t pos1 _ _. by apply post_ret.
Qed.

Lemma post_parseDeclaration (pos : nat) :
  post 1 (λ n, is_statement n = true) (parseDeclaration tokens) pos.
Proof.
  unfold parseDeclaration.
  eapply (post_bind 1 0); [lia | apply post_consume |]. intros _ pos1 _ _.
  eapply (post_bind 1 0 0); [lia | apply post_consume |]. intros t pos2 _ _.
  eapply (post_bind 1 0 0); [lia | apply post_consume |]. intros _ pos3 _ _.
  by apply post_ret.
Qed.

Lemma is_identifier_term (n : ASTNode) :
  is_identifier n = true → is_term n = true.
Proof.
  destruct n as [tag [|[text []] []]]; simpl; try done.
  intros ->. by rewrite orb_true_r.
Qed.

Lemma post_parseTerm (pos : nat) :
  post 1 (λ n, is_term n = true) (parseTerm tokens) pos.
Proof.
  unfold parseTerm.
  eapply (post_bind 0 1); [lia | apply post_token_at_pos |].
  intros t pos1 _ _. destruct (decide (type t = NUMBER)).
  - eapply (post_bind 1 0); [lia | apply post_consume |].
    intros t' pos2 _ _. by apply post_ret.
  - eapply (post_bind 0 1); [lia | apply post_token_at_pos |].
    intros t' pos2 _ _. destruct (decide (type t' = IDENTIFIER)).
    + eapply post_weaken; [| |apply post_parseIdentifier]; [lia|].
      apply is_identifier_term.
    + apply post_throw. by right.
Qed.

Lemma post_parseCondition (pos : nat) :
  post 1 (λ n, is_condition n = true) (parseCondition tokens) pos.
Proof.
  unfold parseCondition.
  eapply (post_bind 1 0); [lia | apply post_parseTerm |]. intros l pos1 Hl _.
  eapply (post_bind 1 0 0); [lia | apply post_consume |]. intros _ pos2 _ _.
  eapply (post_bind 1 0 0); [lia | apply post_parseTerm |]. intros r pos3 Hr _.
  apply post_ret. simpl. by rewrite Hl, Hr.
Qed.
End parser_properties.

Section parser_statements.
Variable tokens : list Token.
Hypothesis tokens_ok : forallb token_ok tokens = true.

Lemma post_peek {A : Type} (d : nat) (Q : A → Prop) (k : Token → Parser A)
    (pos : nat) :
  (∀ t, tokens !! pos = Some t → post d Q (k t) pos) →
  post d Q (token_at_pos tokens ≫= k) pos.
Proof.
  intros Hk. unfold post, mbind, parser_bind, token_at_pos.
  destruct (tokens !! pos) as [t|]; [|done]. by apply Hk.
Qed.

Lemma token_ok_at (pos : nat) (t : Token) :
  tokens !! pos = Some t → token_ok t = true.
Proof.
  intros Ht. apply list_elem_of_lookup_2, list_elem_of_In in Ht.
  rewrite forallb_forall in tokens_ok. auto.
Qed.

Lemma post_parseExpression (pos : nat) :
  post 1 (λ n, is_expression n = true) (parseExpression tokens) pos.
Proof.
  unfold parseExpression.
  eapply (post_bind 1 0); [lia | apply post_parseTerm |]. intros l pos1 Hl _.
  apply post_peek. intros t Ht.
  destruct (decide (type t = PLUS_OP ∨ type t = MINUS_OP)) as [Hop|].
  - apply post_peek. intros t' Ht'.
    assert (t' = t) as -> by congruence.
    eapply (post_bind 1 0); [lia | apply post_consume |].
    intros op pos2 [Hop1 Hop2] _.
    assert (op = t) as -> by congruence.
    eapply (post_bind 1 0 0); [lia | apply post_parseTerm |].
    intros r pos3 Hr _. apply post_ret.
    pose proof (token_ok_at _ _ Ht) as Hok. unfold token_ok in Hok.
    unfold is_expression, is_binary. rewrite Hl, Hr.
    destruct Hop as [Hop|Hop]; rewrite Hop in Hok; rewrite Hok;
      by rewrite ?orb_true_r.
  - apply post_ret. unfold is_expression. by rewrite Hl.
Qed.

Lemma post_parseAssignment_shape (pos : nat) :
  post 1 (λ n, ∃ target expr,
                 n = Node "Assignment" [Node "Identifier" [Node target []]; expr]
                 ∧ is_expression expr = true)
       (parseAssignment tokens) pos.
Proof.
  unfold parseAssignment.
  eapply (post_bind 1 0); [lia | apply post_consume |]. intros t pos1 _ _.
  eapply (post_bind 1 0 0); [lia | apply post_consume |]. intros _ pos2 _ _.
  eapply (post_bind 1 0 0); [lia | apply post_parseExpression |].
  intros expr pos3 Hexpr _.
  eapply (post_bind 1 0 0); [lia | apply post_consume |]. intros _ pos4 _ _.
  apply post_ret. eauto.
Qed.

Lemma post_parseAssignment (pos : nat) :
  post 1 (λ n, is_statement n = true) (parseAssignment tokens) pos.
Proof.
  eapply post_weaken; [| |apply post_parseAssignment_shape]; [lia|].
  intros n (target & expr & -> & Hexpr). simpl. by rewrite Hexpr.
Qed.

(** The loop of parseIfStatement, for a statement parser that meets its
    postcondition wherever a token is left and [fuel] covers the rest of
    the tokens. *)
Lemma post_parseBody (stmt : Parser ASTNode) :
  ∀ fuel body pos,
    length tokens - pos ≤ fuel →
    forallb is_statement body = true →
    (∀ p, pos ≤ p → p < length tokens →
          post 1 (λ n, is_statement n = true) stmt p) →
    post 0 (λ b, forallb is_statement b = true)
         (parseBody tokens stmt fuel body) pos.
Proof.
  induction fuel as [|fuel IH]; intros body pos Hfuel Hbody Hstmt.
  - simpl. apply post_peek. intros t Ht.
    apply lookup_lt_Some in Ht.
    destruct (decide (type t ≠ RBRACE)); [lia | by apply post_ret].
  - simpl. apply post_peek. intros t Ht.
    apply lookup_lt_Some in Ht.
    destruct (decide (type t ≠ RBRACE)); [|by apply post_ret].
    eapply (post_bind 1 0); [lia | apply Hstmt; lia |].
    intros s pos1 Hs Hpos1. apply IH; [lia | |].
    + by rewrite forallb_app, Hbody; simpl; rewrite Hs.
    + intros p Hp Hlt. apply Hstmt; lia.
Qed.

Lemma post_parseIfStatement (stmt : Parser ASTNode) (fuel pos : nat) :
  length tokens - pos ≤ S fuel →
  (∀ p, pos < p → p < length tokens →
        post 1 (λ n, is_statement n = true) stmt p) →
  post 1 (λ n, is_statement n = true)
       (parseIfStatement tokens stmt fuel) pos.
Proof.
  intros Hfuel Hstmt. unfold parseIfStatement.
  eapply (post_bind 1 0); [lia | apply post_consume |]. intros _ pos1 _ Hp1.
  eapply (post_bind 1 0 0); [lia | apply post_consume |]. intros _ pos2 _ Hp2.
  eapply (post_bind 1 0 0); [lia | apply post_parseCondition |].
  intros condition pos3 Hcond Hp3.
  eapply (post_bind 1 0 0); [lia | apply post_consume |]. intros _ pos4 _ Hp4.
  eapply (post_bind 1 0 0); [lia | apply post_consume |]. intros _ pos5 _ Hp5.
  eapply (post_bind 0 0 0); [lia | apply post_parseBody | ]; [lia | done | |].
  { intros p Hp Hlt. apply Hstmt; lia. }
  intros body pos6 Hbody Hp6.
  eapply (post_bind 1 0 0); [lia | apply post_consume |]. intros _ pos7 _ _.
  apply post_ret. simpl. by rewrite Hcond, Hbody.
Qed.

Lemma post_parseStatement :
  ∀ fuel pos,
    length tokens - pos ≤ fuel → pos < length tokens →
    post 1 (λ n, is_statement n = true) (parseStatement tokens fuel) pos.
Proof.
  induction fuel as [|fuel IH]; intros pos Hfuel Hlt; [lia|].
  simpl. apply post_peek. intros t Ht.
  destruct (decide (type t = INT_KEYWORD)); [apply post_parseDeclaration|].
  apply post_peek. intros t' Ht'.
  destruct (decide (type t' = IF_KEYWORD)); [|apply post_parseAssignment].
  apply post_parseIfStatement; [lia|].
  intros p Hp Hplt. apply IH; lia.
Qed.

Lemma post_parseProgram_loop :
  ∀ fuel root_children pos,
    length tokens - pos ≤ fuel →
    forallb is_statement root_children = true →
    post 0 (λ n, is_program n = true)
         (parseProgram_loop tokens fuel root_children) pos.
Proof.
  induction fuel as [|fuel IH]; intros root_children pos Hfuel Hch.
  - unfold post. simpl.
    replace (pos <? length tokens) with false
      by (symmetry; apply Nat.ltb_ge; lia).
    split; [done | lia].
  - unfold post. simpl. destruct (pos <? length tokens) eqn:Hlt.
    + apply Nat.ltb_lt in Hlt.
      eapply (post_bind 1 0 0); [lia | apply post_parseStatement; lia |].
      intros s pos1 Hs Hpos1. apply IH; [lia|].
      by rewrite forallb_app, Hch; simpl; rewrite Hs.
    + split; [done | lia].
Qed.

(** parseProgram returns a Program tree of statements, throws one of the
    two parse errors, or reads outside the token vector; the fuel of the
    model is never used up. *)
Lemma parseProgram_outcome :
  match parseProgram tokens with
  | Done root => is_program root = true
  | Raise msg => parse_error msg
  | Undefined => True
  | NoFuel => False
  end.
Proof.
  pose proof (post_parseProgram_loop (length tokens) [] 0) as H.
  unfold post in H. unfold parseProgram.
  destruct (parseProgram_loop tokens (length tokens) [] 0)
    as [[root pos]| | |]; simpl; try (apply H; (lia || done)).
Qed.
End parser_statements.

(* ================================================================= *)
(** * Properties of the code generator *)

(** ** Running the generator step by step *)

Lemma gen_bind_done {A B : Type} (m : Gen A) (k : A → Gen B)
    (st st1 st2 : GenState) (a : A) (b : B) (l1 l2 : list string) :
  m st = Done (a, st1, l1) → k a st1 = Done (b, st2, l2) →
  (m ≫= k) st = Done (b, st2, l1 ++ l2).
Proof. intros H1 H2. unfold mbind, gen_bind. by rewrite H1, H2. Qed.

Lemma generateAssembly_Program (cs : list ASTNode) :
  generateAssembly (Node "Program" cs) = for_each generateAssembly cs.
Proof. reflexivity. Qed.

Lemma generateAssembly_If (condition : ASTNode) (tag : string)
    (body rest : list ASTNode) :
  generateAssembly (Node "If" (condition :: Node tag body :: rest)) =
  (label ← fresh_label;
   _ ← generateAssembly condition;
   _ ← emit ("  JNZ LABEL" +:+ pretty label);
   _ ← for_each generateAssembly body;
   emit ("LABEL" +:+ pretty label +:+ ":")).
Proof. reflexivity. Qed.

Lemma is_term_inv (n : ASTNode) :
  is_term n = true →
  ∃ text, n = Number_node text ∨ n = Identifier_node text.
Proof.
  destruct n as [tag [|[text [|]] [|]]]; simpl; try done.
  intros H. exists text.
  apply orb_prop in H as [H|H]; apply String.eqb_eq in H; subst; auto.
Qed.

Lemma is_identifier_inv (n : ASTNode) :
  is_identifier n = true → ∃ name, n = Identifier_node name.
Proof.
  destruct n as [tag [|[text [|]] [|]]]; simpl; try done.
  intros H. exists text. apply String.eqb_eq in H. by subst.
Qed.

(** ** Assignments and conditions *)

Lemma gen_Assignment_Number (target numeral : string) (st : GenState) :
  generateAssembly (Assignment_node target (Number_node numeral)) st =
  Done (tt, st, ["  MVI A, " +:+ numeral; "  STA " +:+ target]).
Proof. reflexivity. Qed.

Lemma gen_Assignment_Identifier (target name : string) (st : GenState) :
  generateAssembly (Assignment_node target (Identifier_node name)) st =
  Done (tt, st, ["  STA " +:+ target]).
Proof. reflexivity. Qed.

Lemma gen_Assignment_minus (target : string) (l r : ASTNode) (st : GenState) :
  generateAssembly (Assignment_node target (Node "-" [l; r])) st =
  Done (tt, st, ["  STA " +:+ target]).
Proof. reflexivity. Qed.

Lemma gen_Assignment_plus (target : string) (i1 i2 : bool) (t1 t2 : string)
    (st : GenState) :
  generateAssembly
    (Assignment_node target (Node "+" [operand_node i1 t1; operand_node i2 t2]))
    st =
  Done (tt, st, [first_operand_line i1 t1; second_operand_line i2 t2;
                 "  STA " +:+ target]).
Proof. by destruct i1, i2. Qed.

Lemma is_term_operand (n : ASTNode) :
  is_term n = true → ∃ i text, n = operand_node i text.
Proof.
  intros H. apply is_term_inv in H as [text [->| ->]].
  - by exists false, text.
  - by exists true, text.
Qed.

Lemma gen_condition (tagl tagr textl textr : string) (st : GenState) :
  generateAssembly
    (Node "==" [Node tagl [Node textl []]; Node tagr [Node textr []]]) st =
  Done (tt, st, ["  MOV A, " +:+ textl; "  CPI " +:+ textr]).
Proof. reflexivity. Qed.

Lemma gen_Declaration (name : string) (st : GenState) :
  generateAssembly (Declaration_node name) st =
  Done (tt, mkGenState (<[name := 0%Z]> (symbolTable st)) (labelCounter st), []).
Proof. reflexivity. Qed.

(** ** Label lines *)

Lemma is_label_line_label (k : Z) : is_label_line (label_line k) = true.
Proof. reflexivity. Qed.

Lemma append_inv_tail (s1 s2 t : string) : s1 +:+ t = s2 +:+ t → s1 = s2.
Proof.
  intros H. apply (f_equal list_ascii_of_string) in H.
  rewrite !list_ascii_app in H. apply app_inv_tail in H.
  apply (f_equal string_of_list_ascii) in H.
  by rewrite !string_of_list_ascii_of_string in H.
Qed.

Lemma label_line_inj (k1 k2 : Z) : label_line k1 = label_line k2 → k1 = k2.
Proof.
  unfold label_line. intros H. injection H as H.
  rewrite !append_empty_l in H.
  apply append_inv_tail in H. by apply (inj pretty) in H.
Qed.

Lemma label_lines_app (l1 l2 : list string) :
  label_lines (l1 ++ l2) = label_lines l1 ++ label_lines l2.
Proof. apply List.filter_app. Qed.

Lemma labels_in_plain (c : Z) (lines : list string) :
  label_lines lines = [] → labels_in c c lines.
Proof.
  intros H. unfold labels_in. rewrite H.
  split; [intros l [] | split; [constructor | simpl; lia]].
Qed.

Lemma labels_in_app (c c1 c2 : Z) (l1 l2 : list string) :
  (c ≤ c1)%Z → (c1 ≤ c2)%Z →
  labels_in c c1 l1 → labels_in c1 c2 l2 → labels_in c c2 (l1 ++ l2).
Proof.
  intros H1 H2 (Hin1 & Hnd1 & Hlen1) (Hin2 & Hnd2 & Hlen2). unfold labels_in.
  rewrite label_lines_app. split; [|split].
  - intros l Hl. apply in_app_or in Hl as [Hl|Hl].
    + destruct (Hin1 l Hl) as (k & Hk & ->). exists k. split; [lia | done].
    + destruct (Hin2 l Hl) as (k & Hk & ->). exists k. split; [lia | done].
  - apply NoDup_ListNoDup, NoDup_app. repeat split.
    + by apply NoDup_ListNoDup.
    + intros l Hl1 Hl2. apply list_elem_of_In in Hl1, Hl2.
      destruct (Hin1 l Hl1) as (k1 & Hk1 & ->).
      destruct (Hin2 _ Hl2) as (k2 & Hk2 & Heq).
      apply label_line_inj in Heq. lia.
    + by apply NoDup_ListNoDup.
  - rewrite length_app. lia.
Qed.


(** ** Statements *)

Lemma gen_ok_plain (g : Gen unit) (lines : list string) :
  label_lines lines = [] →
  (∀ st, g st = Done (tt, st, lines)) →
  gen_ok g [] 0.
Proof.
  intros Hl Hg c Hc. exists lines. rewrite Z.add_0_r.
  split; [by apply labels_in_plain | intros table; apply Hg].
Qed.

Lemma gen_ok_bind (g1 g2 : Gen unit) (n1 n2 : list string) (k1 k2 : Z) :
  (0 ≤ k1)%Z → (0 ≤ k2)%Z →
  gen_ok g1 n1 k1 → gen_ok g2 n2 k2 →
  gen_ok (g1 ≫= λ _, g2) (n1 ++ n2) (k1 + k2).
Proof.
  intros Hk1 Hk2 H1 H2 c Hc.
  destruct (H1 c) as (l1 & Hl1 & E1); [lia|].
  destruct (H2 (c + k1)%Z) as (l2 & Hl2 & E2); [lia|].
  exists (l1 ++ l2). split.
  - replace (c + (k1 + k2))%Z with (c + k1 + k2)%Z by lia.
    eapply labels_in_app; [| |exact Hl1|exact Hl2]; lia.
  - intros table. rewrite (gen_bind_done _ _ _ _ _ _ _ _ _ (E1 table) (E2 _)).
    unfold declare_names. rewrite fold_left_app.
    by replace (c + (k1 + k2))%Z with (c + k1 + k2)%Z by lia.
Qed.

Lemma sum_over_nonneg (f : ASTNode → Z) (l : list ASTNode) :
  Forall (λ s, (0 ≤ f s)%Z) l → (0 ≤ sum_over f l)%Z.
Proof. induction 1; simpl; lia. Qed.

(** Induction with the hypothesis for the children and for their children:
    the statements of an If node are the children of its Body child. *)
Lemma ASTNode_deep_ind (Q : ASTNode → Prop) :
  (∀ value cs,
     Forall Q cs → Forall (λ c, Forall Q (children c)) cs →
     Q (Node value cs)) →
  ∀ n, Q n.
Proof.
  intros step n.
  enough (Q n ∧ Forall Q (children n)) as [H _] by exact H.
  induction n as [value cs IH] using ASTNode_ind.
  assert (Forall Q cs) as Hcs.
  { eapply Forall_impl; [exact IH|]. by intros c [H _]. }
  split; [|exact Hcs].
  apply step; [exact Hcs|].
  eapply Forall_impl; [exact IH|]. by intros c [_ H].
Qed.

Lemma if_statements_nonneg (n : ASTNode) : (0 ≤ if_statements n)%Z.
Proof.
  induction n as [tag cs IH1 IH2] using ASTNode_deep_ind. simpl.
  destruct (String.eqb tag "Program"); [by apply sum_over_nonneg|].
  destruct (String.eqb tag "If"); [|lia].
  destruct cs as [|c0 [|[tag1 body] rest]]; try lia.
  apply Forall_cons in IH2 as [_ IH2]. apply Forall_cons in IH2 as [IH2 _].
  pose proof (sum_over_nonneg if_statements body IH2). lia.
Qed.

Lemma gen_ok_for_each (stmts : list ASTNode) :
  Forall (λ s, gen_ok (generateAssembly s) (declared s) (if_statements s))
         stmts →
  gen_ok (for_each generateAssembly stmts)
         (concat (map declared stmts)) (sum_over if_statements stmts).
Proof.
  induction 1 as [|s stmts Hs _ IH]; simpl.
  - by apply (gen_ok_plain _ []).
  - apply gen_ok_bind; [apply if_statements_nonneg | | done | done].
    apply sum_over_nonneg, Forall_forall. intros x _.
    apply if_statements_nonneg.
Qed.

Lemma gen_Assignment_expression (target : string) (expr : ASTNode) :
  is_expression expr = true →
  ∃ lines,
    label_lines lines = [] ∧
    ∀ st, generateAssembly (Assignment_node target expr) st = Done (tt, st, lines).
Proof.
  unfold is_expression. intros H. apply orb_prop in H as [H|H].
  - apply is_term_inv in H as [text [->| ->]]; eexists; split;
      [|intros st; apply gen_Assignment_Number | |
       intros st; apply gen_Assignment_Identifier]; done.
  - destruct expr as [op [|l [|r [|]]]]; simpl in H; try done.
    apply andb_prop in H as [H Hr]. apply andb_prop in H as [Hop Hl].
    apply orb_prop in Hop as [Hop|Hop]; apply String.eqb_eq in Hop; subst op.
    + apply is_term_operand in Hl as (i1 & t1 & ->).
      apply is_term_operand in Hr as (i2 & t2 & ->).
      eexists. split; [|intros st; apply gen_Assignment_plus].
      by destruct i1, i2.
    + eexists. split; [|intros st; apply gen_Assignment_minus]. done.
Qed.

Lemma gen_If (tagl tagr textl textr : string) (stmts : list ASTNode)
    (table table' : gmap string Z) (c c' : Z) (body : list string) :
  c ≠ INT_MAX →
  for_each generateAssembly stmts (mkGenState table (c + 1)) =
    Done (tt, mkGenState table' c', body) →
  generateAssembly
    (If_node (Node "==" [Node tagl [Node textl []]; Node tagr [Node textr []]])
             stmts)
    (mkGenState table c) =
  Done (tt, mkGenState table' c',
        ["  MOV A, " +:+ textl; "  CPI " +:+ textr;
         "  JNZ LABEL" +:+ pretty c] ++ body ++ [label_line c]).
Proof.
  intros Hc Hbody. unfold If_node. rewrite generateAssembly_If.
  unfold mbind, gen_bind, fresh_label. cbn [labelCounter symbolTable].
  destruct (decide (c = INT_MAX)); [done|].
  rewrite gen_condition. unfold emit at 1. rewrite Hbody. done.
Qed.

(** Every statement the parser builds is translated. *)
Lemma gen_ok_statement (n : ASTNode) :
  is_statement n = true →
  gen_ok (generateAssembly n) (declared n) (if_statements n).
Proof.
  induction n as [tag cs IH1 IH2] using ASTNode_deep_ind.
  intros Hs. simpl in Hs.
  destruct (String.eqb tag "Declaration") eqn:Edecl.
  { apply String.eqb_eq in Edecl. subst tag.
    destruct cs as [|target [|]]; try done.
    apply is_identifier_inv in Hs as [name ->].
    change (gen_ok (generateAssembly (Declaration_node name)) [name] 0).
    intros c Hc. exists []. rewrite Z.add_0_r.
    split; [by apply labels_in_plain | done]. }
  destruct (String.eqb tag "Assignment") eqn:Eassign.
  { apply String.eqb_eq in Eassign. subst tag.
    destruct cs as [|target [|expr [|]]]; try done.
    apply andb_prop in Hs as [Ht He].
    apply is_identifier_inv in Ht as [name ->].
    destruct (gen_Assignment_expression name expr He) as (lines & Hl & Hg).
    change (gen_ok (generateAssembly (Assignment_node name expr)) [] 0).
    by apply (gen_ok_plain _ lines). }
  destruct (String.eqb tag "If") eqn:Eif; [|done].
  apply String.eqb_eq in Eif. subst tag.
  destruct cs as [|condition [|[tagb stmts] [|]]]; try done.
  apply andb_prop in Hs as [H Hstmts]. apply andb_prop in H as [Hcond Hb].
  apply Forall_cons in IH2 as [_ IH2]. apply Forall_cons in IH2 as [IH2 _].
  simpl in IH2.
  assert (gen_ok (for_each generateAssembly stmts)
            (concat (map declared stmts)) (sum_over if_statements stmts))
    as Hbody.
  { apply gen_ok_for_each. rewrite forallb_forall in Hstmts.
    rewrite Forall_forall in IH2 |- *. intros s Hs.
    apply IH2; [done|]. apply Hstmts. by apply list_elem_of_In. }
  destruct condition as [op [|[tagl [|[textl [|]] [|]]]
                              [|[tagr [|[textr [|]] [|]]] [|]]]];
    simpl in Hcond; try done;
    try (by rewrite ?andb_false_r in Hcond).
  apply andb_prop in Hcond as [Hcond _]. apply andb_prop in Hcond as [Hop _].
  apply String.eqb_eq in Hop. subst op.
  apply String.eqb_eq in Hb. subst tagb.
  assert (0 ≤ sum_over if_statements stmts)%Z as Hnn.
  { apply sum_over_nonneg, Forall_forall. intros x _.
    apply if_statements_nonneg. }
  change (gen_ok
            (generateAssembly
               (If_node (Node "==" [Node tagl [Node textl []];
                                    Node tagr [Node textr []]]) stmts))
            (concat (map declared stmts))
            (1 + sum_over if_statements stmts)).
  intros c Hc.
  destruct (Hbody (c + 1)%Z) as (body & Hlabels & Hgen); [lia|].
  assert (c ≠ INT_MAX) as Hne by lia.
  eexists. split.
  2:{ intros table. rewrite (gen_If _ _ _ _ _ _ _ _ _ _ Hne (Hgen table)).
      rewrite Z.add_assoc. reflexivity. }
  change (?a :: ?b :: ?c :: body ++ [label_line c])
    with ([a; b; c] ++ body ++ [label_line c]).
  apply (labels_in_app c c (c + (1 + sum_over if_statements stmts)));
    [lia | lia | by apply labels_in_plain |].
  unfold labels_in in *. rewrite label_lines_app.
  destruct Hlabels as (Hin & Hnd & Hlen). split; [|split].
  - intros l Hl. apply in_app_or in Hl as [Hl|Hl].
    + destruct (Hin l Hl) as (k & Hk & ->). exists k. split; [lia | done].
    + destruct Hl as [<-|[]]. exists c. split; [lia | done].
  - apply NoDup_ListNoDup, NoDup_app. repeat split.
    + by apply NoDup_ListNoDup.
    + intros l Hl1 Hl2. apply list_elem_of_In in Hl1.
      destruct (Hin l Hl1) as (k & Hk & ->).
      apply list_elem_of_In in Hl2. destruct Hl2 as [Heq|[]].
      symmetry in Heq. apply label_line_inj in Heq. lia.
    + apply NoDup_ListNoDup. repeat constructor. intros [].
  - rewrite length_app. simpl. lia.
Qed.

Lemma gen_ok_statements (stmts : list ASTNode) :
  forallb is_statement stmts = true →
  gen_ok (for_each generateAssembly stmts)
         (concat (map declared stmts)) (sum_over if_statements stmts).
Proof.
  intros Hstmts. apply gen_ok_for_each. rewrite forallb_forall in Hstmts.
  apply Forall_forall. intros s Hs.
  apply gen_ok_statement, Hstmts. by apply list_elem_of_In.
Qed.

Lemma gen_ok_program (root : ASTNode) :
  is_program root = true →
  gen_ok (generateAssembly root) (declared root) (if_statements root).
Proof.
  destruct root as [tag stmts]. simpl. intros H.
  apply andb_prop in H as [Htag Hstmts].
  apply String.eqb_eq in Htag. subst tag.
  change (gen_ok (for_each generateAssembly stmts)
            (concat (map declared stmts)) (sum_over if_statements stmts)).
  by apply gen_ok_statements.
Qed.

(** The table after declaring [names]. *)
Lemma declare_names_lookup (names : list string) (table : gmap string Z)
    (key : string) :
  declare_names names table !! key =
  if decide (key ∈ names) then Some 0%Z else table !! key.
Proof.
  unfold declare_names. revert table.
  induction names as [|name names IH]; intros table; simpl.
  - destruct (decide (key ∈ [])) as [Hin|]; [|done].
    by apply not_elem_of_nil in Hin.
  - rewrite IH. destruct (decide (key ∈ names)) as [Hin|Hnin].
    + rewrite decide_True; [done|]. by right.
    + destruct (decide (key = name)) as [->|Hne].
      * rewrite lookup_insert_eq. rewrite decide_True; [done|]. by left.
      * rewrite lookup_insert_ne by done.
        rewrite decide_False; [done|].
        intros [?|?]%elem_of_cons; done.
Qed.

(** ** The listing of a source text *)

Lemma main_listing (source : string) (tokens : list Token) (root : ASTNode)
    (lines : list string) :
  tokenize source = Done tokens →
  parseProgram tokens = Done root →
  assembly_listing source = Done lines →
  main (Some [source]) =
  Done (mkRun (printAST root 0 +:+ endl +:+ "Assembly Code:" +:+ endl
               +:+ lines_text lines) "" 0%Z).
Proof.
  unfold main, assembly_listing, read_source. cbn [fold_left].
  rewrite append_empty_l. intros -> . simpl. intros ->. simpl.
  destruct (generateAssembly root initial_state) as [[[[] st] l]| | |];
    simpl; try done.
  by intros [= ->].
Qed.

Lemma post_done {A : Type} (d : nat) (Q : A → Prop) (m : Parser A)
    (pos pos' : nat) (a : A) :
  post d Q m pos → m pos = Done (a, pos') → Q a ∧ pos + d ≤ pos'.
Proof. unfold post. intros H E. by rewrite E in H. Qed.

Lemma is_condition_inv (n : ASTNode) :
  is_condition n = true →
  ∃ tagl textl tagr textr,
    n = Node "==" [Node tagl [Node textl []]; Node tagr [Node textr []]].
Proof.
  destruct n as [op [|[tagl [|[textl [|]] [|]]]
                      [|[tagr [|[textr [|]] [|]]] [|]]]];
    simpl; try done; rewrite ?andb_false_r; try done.
  intros H. apply andb_prop in H as [H _]. apply andb_prop in H as [H _].
  apply String.eqb_eq in H. subst op. eauto.
Qed.

(* ================================================================= *)
(** * The claims *)

(** C7: at a position that holds a number token, parseTerm returns a Number
    node over a leaf with the token's text; at a position that holds an
    identifier token, an Identifier node over such a leaf; in both cases
    the cursor moves past the token.  At a position that holds a token of
    any other kind, parseTerm throws "Expected term". *)
Theorem parseTerm_number_identifier_or_error (tokens : list Token)
    (pos : nat) (t : Token) :
  tokens !! pos = Some t →
  (type t = NUMBER →
   parseTerm tokens pos = Done (Node "Number" [Node (value t) []], S pos)) ∧
  (type t = IDENTIFIER →
   parseTerm tokens pos = Done (Node "Identifier" [Node (value t) []], S pos)) ∧
  (type t ≠ NUMBER → type t ≠ IDENTIFIER →
   parseTerm tokens pos = Raise "Expected term").
Proof.
  intros Ht.
  unfold parseTerm, parseIdentifier, consume, token_at_pos, token_at_pos_incr,
    mbind, parser_bind, mret, parser_ret, throw.
  rewrite Ht. repeat split.
  - intros Hty. rewrite decide_True by done. rewrite Ht.
    rewrite decide_True by done. by rewrite Ht.
  - intros Hty. rewrite decide_False by congruence. rewrite Ht.
    rewrite decide_True by done. rewrite Ht.
    rewrite decide_True by done. by rewrite Ht.
  - intros Hn Hi. rewrite decide_False by done. rewrite Ht.
    by rewrite decide_False by done.
Qed.

Lemma parseTerm_number_identifier_or_error_witness :
  parseTerm [mkToken IDENTIFIER "x"; mkToken NUMBER "42"; mkToken PLUS_OP "+"] 1
    = Done (Node "Number" [Node "42" []], 2) ∧
  parseTerm [mkToken IDENTIFIER "x"; mkToken NUMBER "42"; mkToken PLUS_OP "+"] 0
    = Done (Node "Identifier" [Node "x" []], 1) ∧
  parseTerm [mkToken IDENTIFIER "x"; mkToken NUMBER "42"; mkToken PLUS_OP "+"] 2
    = Raise "Expected term".
Proof.
  split; [|split].
  - apply (parseTerm_number_identifier_or_error
             [mkToken IDENTIFIER "x"; mkToken NUMBER "42"; mkToken PLUS_OP "+"]
             1 (mkToken NUMBER "42") eq_refl); reflexivity.
  - apply (parseTerm_number_identifier_or_error
             [mkToken IDENTIFIER "x"; mkToken NUMBER "42"; mkToken PLUS_OP "+"]
             0 (mkToken IDENTIFIER "x") eq_refl); reflexivity.
  - apply (parseTerm_number_identifier_or_error
             [mkToken IDENTIFIER "x"; mkToken NUMBER "42"; mkToken PLUS_OP "+"]
             2 (mkToken PLUS_OP "+") eq_refl); discriminate.
Defined.

(** C3 (the code departs from the claim): consume, like every parsing
    routine, reads [tokens[pos]] without comparing [pos] with the size of
    the vector.  With the cursor at the end of the tokens the read is
    outside the vector: for [int x] without its semicolon, and for an
    if-statement whose brace is never closed, parseProgram neither returns
    a tree nor throws the parse error. *)
Theorem parse_truncated_reads_past_end :
  (∀ tokens ty, consume tokens ty (length tokens) = Undefined) ∧
  tokenize "int x" = Done [mkToken INT_KEYWORD "int"; mkToken IDENTIFIER "x"] ∧
  parseProgram [mkToken INT_KEYWORD "int"; mkToken IDENTIFIER "x"] = Undefined ∧
  (∃ tokens, tokenize "if (x == 1) { y = 2;" = Done tokens ∧
             parseProgram tokens = Undefined).
Proof.
  split; [|split; [|split]].
  - intros tokens ty. unfold consume, token_at_pos, mbind, parser_bind.
    by rewrite lookup_ge_None_2.
  - reflexivity.
  - reflexivity.
  - eexists. split; reflexivity.
Qed.

(** C6: when parsing throws, main writes nothing to the standard output
    (no tree, no header, no instruction, whatever was parsed before the
    failure), writes the message of the error to the error stream, and
    returns 0; the message is one of the two parse errors.  A stray [@]
    where a statement is expected is such an input. *)
Theorem parse_failure_aborts_run (lines : list string) (tokens : list Token)
    (msg : string) :
  tokenize (fold_left String.append lines "") = Done tokens →
  parseProgram tokens = Raise msg →
  main (Some lines) = Done (mkRun "" ("Error: " +:+ msg +:+ endl) 0%Z) ∧
  parse_error msg ∧
  main (Some ["x = 5; @ y = 1;"]) =
    Done (mkRun "" ("Error: Unexpected token" +:+ endl) 0%Z).
Proof.
  intros Htok Hparse. split; [|split].
  - unfold main, read_source. rewrite Htok. simpl. by rewrite Hparse.
  - pose proof (parseProgram_outcome tokens (tokenize_tokens_ok _ _ Htok)) as H.
    by rewrite Hparse in H.
  - reflexivity.
Qed.

Lemma parse_failure_aborts_run_witness :
  main (Some ["int x; x = ;"; "x = 1;"]) =
  Done (mkRun "" ("Error: Expected term" +:+ endl) 0%Z).
Proof.
  refine (proj1 (parse_failure_aborts_run ["int x; x = ;"; "x = 1;"]
                   _ "Expected term" _ _)); reflexivity.
Defined.

(** C1: an Assignment node that parseAssignment returns, on the tokens of
    any source text, is [Assignment -> (Identifier -> target), expr] with
    [expr] a term or a binary node; for a Number expression
    generateAssembly writes [MVI A, numeral] and [STA target]; for a [+]
    node it writes [MOV A, name] or [MVI A, numeral] for the first operand,
    [ADD name] or [ADI numeral] for the second, then [STA target].  The
    state is unchanged.  The listings of [x = 5;] and of [x = y + 3;] are
    the two and the three lines of the specification. *)
Theorem assignment_number_and_plus :
  (∀ source tokens pos node pos',
     tokenize source = Done tokens →
     parseAssignment tokens pos = Done (node, pos') →
     ∃ target expr,
       node = Assignment_node target expr ∧ is_expression expr = true) ∧
  (∀ target numeral st,
     generateAssembly (Assignment_node target (Number_node numeral)) st =
     Done (tt, st, ["  MVI A, " +:+ numeral; "  STA " +:+ target])) ∧
  (∀ target x y st,
     generateAssembly
       (Assignment_node target (Node "+" [Identifier_node x; Identifier_node y]))
       st =
     Done (tt, st, ["  MOV A, " +:+ x; "  ADD " +:+ y; "  STA " +:+ target])) ∧
  (∀ target x n st,
     generateAssembly
       (Assignment_node target (Node "+" [Identifier_node x; Number_node n]))
       st =
     Done (tt, st, ["  MOV A, " +:+ x; "  ADI " +:+ n; "  STA " +:+ target])) ∧
  (∀ target m y st,
     generateAssembly
       (Assignment_node target (Node "+" [Number_node m; Identifier_node y]))
       st =
     Done (tt, st, ["  MVI A, " +:+ m; "  ADD " +:+ y; "  STA " +:+ target])) ∧
  (∀ target m n st,
     generateAssembly
       (Assignment_node target (Node "+" [Number_node m; Number_node n]))
       st =
     Done (tt, st, ["  MVI A, " +:+ m; "  ADI " +:+ n; "  STA " +:+ target])) ∧
  assembly_listing "x = 5;" = Done ["  MVI A, 5"; "  STA x"] ∧
  assembly_listing "x = y + 3;" = Done ["  MOV A, y"; "  ADI 3"; "  STA x"].
Proof.
  split; [|repeat split].
  intros source tokens pos node pos' Htok Hparse.
  pose proof (post_parseAssignment_shape tokens
                (tokenize_tokens_ok _ _ Htok) pos) as Hpost.
  destruct (post_done _ _ _ _ _ _ Hpost Hparse) as [(target & expr & -> & He) _].
  by exists target, expr.
Qed.

Lemma assignment_number_and_plus_witness :
  ∃ target expr,
    Node "Assignment"
      [Node "Identifier" [Node "x" []];
       Node "+" [Node "Identifier" [Node "y" []]; Node "Number" [Node "3" []]]]
    = Assignment_node target expr ∧ is_expression expr = true.
Proof.
  refine (proj1 assignment_number_and_plus "int x; x = y + 3;" _ 3 _ 9 _ _);
    reflexivity.
Defined.

(** C5: for an Assignment node whose expression is a [-] node,
    generateAssembly writes the one line [STA target] and nothing for the
    operator or its operands, whatever the operands are; the listing of
    [x = y - 3;] is that one line. *)
Theorem assignment_minus_emits_only_store :
  (∀ target l r st,
     generateAssembly (Assignment_node target (Node "-" [l; r])) st =
     Done (tt, st, ["  STA " +:+ target])) ∧
  assembly_listing "x = y - 3;" = Done ["  STA x"].
Proof. split; reflexivity. Qed.

(** C9: for an Assignment node whose expression is a bare Identifier node,
    generateAssembly writes the one line [STA target], with no load of the
    source identifier; the listing of [x = y;] is that one line. *)
Theorem assignment_identifier_emits_only_store :
  (∀ target name st,
     generateAssembly (Assignment_node target (Identifier_node name)) st =
     Done (tt, st, ["  STA " +:+ target])) ∧
  assembly_listing "x = y;" = Done ["  STA x"].
Proof. split; reflexivity. Qed.

(** C10: a node that parseCondition returns is [==] over two terms, and for
    every [==] node over two one-leaf children generateAssembly writes
    [MOV A, text of the left leaf] and [CPI text of the right leaf],
    whatever the tags of the two children are; the listing of
    [if (5 == x) { }] starts with [MOV A, 5] and [CPI x]. *)
Theorem condition_ignores_operand_kinds :
  (∀ tokens pos node pos',
     parseCondition tokens pos = Done (node, pos') →
     ∃ tagl textl tagr textr,
       node = Node "==" [Node tagl [Node textl []]; Node tagr [Node textr []]]) ∧
  (∀ tagl textl tagr textr st,
     generateAssembly
       (Node "==" [Node tagl [Node textl []]; Node tagr [Node textr []]]) st =
     Done (tt, st, ["  MOV A, " +:+ textl; "  CPI " +:+ textr])) ∧
  assembly_listing "if (5 == x) { }" =
    Done ["  MOV A, 5"; "  CPI x"; "  JNZ LABEL0"; "LABEL0:"].
Proof.
  split; [|split; reflexivity].
  intros tokens pos node pos' Hparse.
  destruct (post_done _ _ _ _ _ _ (post_parseCondition tokens pos) Hparse)
    as [Hc _].
  by apply is_condition_inv.
Qed.

Lemma condition_ignores_operand_kinds_witness :
  ∃ tagl textl tagr textr,
    Node "==" [Node "Number" [Node "5" []]; Node "Identifier" [Node "x" []]] =
    Node "==" [Node tagl [Node textl []]; Node tagr [Node textr []]].
Proof.
  refine (proj1 condition_ignores_operand_kinds
            [mkToken NUMBER "5"; mkToken EQ_OP "=="; mkToken IDENTIFIER "x"]
            0 _ 3 _).
  reflexivity.
Defined.


(** C2: for an If node over an [==] condition and a body of statements,
    with the label counter at [c] (and room in [int] for the labels of the
    node), generateAssembly writes [MOV A, left leaf], [CPI right leaf],
    [JNZ LABELc], then the lines of the body statements, generated in
    order with the counter at [c + 1], then [LABELc:].  In the listing of
    a source text the lines that define a label are pairwise different,
    they define labels numbered below the number of if-statements, and
    there is one for each if-statement: no label is defined twice.  The
    listing of [if (x == 1) { y = 2; }] is the six lines of the
    specification, and two if-statements in a row get LABEL0 and LABEL1. *)
Theorem if_code_and_labels :
  (∀ tagl textl tagr textr stmts c,
     forallb is_statement stmts = true →
     (c + (1 + sum_over if_statements stmts) ≤ INT_MAX)%Z →
     ∃ body,
       labels_in (c + 1) (c + 1 + sum_over if_statements stmts) body ∧
       ∀ table,
         for_each generateAssembly stmts (mkGenState table (c + 1)) =
           Done (tt, mkGenState (declare_names (concat (map declared stmts)) table)
                                (c + 1 + sum_over if_statements stmts), body) ∧
         generateAssembly
           (If_node (Node "==" [Node tagl [Node textl []];
                                Node tagr [Node textr []]]) stmts)
           (mkGenState table c) =
           Done (tt, mkGenState (declare_names (concat (map declared stmts)) table)
                                (c + 1 + sum_over if_statements stmts),
                 ["  MOV A, " +:+ textl; "  CPI " +:+ textr;
                  "  JNZ LABEL" +:+ pretty c]
                 ++ body ++ ["LABEL" +:+ pretty c +:+ ":"])) ∧
  (∀ source tokens root,
     tokenize source = Done tokens →
     parseProgram tokens = Done root →
     (if_statements root ≤ INT_MAX)%Z →
     ∃ lines,
       assembly_listing source = Done lines ∧
       List.NoDup (label_lines lines) ∧
       Z.of_nat (length (label_lines lines)) = if_statements root ∧
       ∀ l, In l (label_lines lines) →
            ∃ k, (0 ≤ k < if_statements root)%Z ∧
                 l = "LABEL" +:+ pretty k +:+ ":") ∧
  assembly_listing "if (x == 1) { y = 2; }" =
    Done ["  MOV A, x"; "  CPI 1"; "  JNZ LABEL0"; "  MVI A, 2"; "  STA y";
          "LABEL0:"] ∧
  assembly_listing "if (x == 1) { y = 2; } if (y == 2) { x = 1; }" =
    Done ["  MOV A, x"; "  CPI 1"; "  JNZ LABEL0"; "  MVI A, 2"; "  STA y";
          "LABEL0:";
          "  MOV A, y"; "  CPI 2"; "  JNZ LABEL1"; "  MVI A, 1"; "  STA x";
          "LABEL1:"].
Proof.
  split; [|split; [|split; reflexivity]].
  - intros tagl textl tagr textr stmts c Hstmts Hc.
    assert (0 ≤ sum_over if_statements stmts)%Z as Hnn.
    { apply sum_over_nonneg, Forall_forall. intros x _.
      apply if_statements_nonneg. }
    destruct (gen_ok_statements stmts Hstmts (c + 1)%Z) as (body & Hl & Hgen);
      [lia|].
    exists body. split; [done|]. intros table. split; [apply Hgen|].
    apply gen_If; [lia | apply Hgen].
  - intros source tokens root Htok Hparse Hrange.
    pose proof (parseProgram_outcome tokens (tokenize_tokens_ok _ _ Htok)) as Hroot.
    rewrite Hparse in Hroot.
    destruct (gen_ok_program root Hroot 0%Z) as (lines & Hl & Hgen); [lia|].
    exists lines. split.
    + unfold assembly_listing. rewrite Htok. simpl. rewrite Hparse. simpl.
      unfold initial_state. by rewrite Hgen.
    + destruct Hl as (Hin & Hnd & Hlen). rewrite Z.add_0_l in *.
      split; [done|]. split; [lia|]. exact Hin.
Qed.

Lemma if_code_and_labels_witness :
  ∃ lines,
    assembly_listing "if (a == 1) { if (b == 2) { c = 3; } } if (d == 4) { }"
      = Done lines ∧
    List.NoDup (label_lines lines) ∧
    Z.of_nat (length (label_lines lines)) = 3%Z.
Proof.
  destruct (proj1 (proj2 if_code_and_labels)
              "if (a == 1) { if (b == 2) { c = 3; } } if (d == 4) { }"
              _ _ eq_refl eq_refl)
    as (lines & Hl & Hnd & Hlen & _).
  - vm_compute. discriminate.
  - exists lines. split; [exact Hl|]. split; [exact Hnd | exact Hlen].
Defined.

(** C8: main starts generateAssembly with an empty table.  A Declaration
    node maps its name to 0 and writes no line.  For the tree of any
    source text (with room in [int] for its labels) generateAssembly
    returns; the lines and the final counter are the same whatever the
    table holds at the start, so no entry is read; every key of the table
    at the start is still present at the end, every declared name is
    mapped to 0, and every other key is as before.  Declaring a name twice
    is accepted and leaves the one entry. *)
Theorem symbol_table_grows :
  symbolTable initial_state = ∅ ∧
  (∀ name st,
     generateAssembly (Declaration_node name) st =
     Done (tt, mkGenState (<[name := 0%Z]> (symbolTable st)) (labelCounter st),
           [])) ∧
  (∀ source tokens root c,
     tokenize source = Done tokens →
     parseProgram tokens = Done root →
     (c + if_statements root ≤ INT_MAX)%Z →
     ∃ lines c',
       ∀ table, ∃ table',
         generateAssembly root (mkGenState table c) =
           Done (tt, mkGenState table' c', lines) ∧
         (∀ key, is_Some (table !! key) → is_Some (table' !! key)) ∧
         (∀ name, name ∈ declared root → table' !! name = Some 0%Z) ∧
         (∀ key, key ∉ declared root → table' !! key = table !! key)) ∧
  (∃ tokens root,
     tokenize "int x; int x;" = Done tokens ∧
     parseProgram tokens = Done root ∧
     generateAssembly root initial_state =
       Done (tt, mkGenState {["x" := 0%Z]} 0, [])).
Proof.
  split; [reflexivity|]. split; [reflexivity|]. split.
  - intros source tokens root c Htok Hparse Hc.
    pose proof (parseProgram_outcome tokens (tokenize_tokens_ok _ _ Htok)) as Hroot.
    rewrite Hparse in Hroot.
    destruct (gen_ok_program root Hroot c Hc) as (lines & _ & Hgen).
    exists lines, (c + if_statements root)%Z. intros table.
    exists (declare_names (declared root) table).
    split; [apply Hgen|]. split; [|split].
    + intros key Hkey. rewrite declare_names_lookup.
      by destruct (decide (key ∈ declared root)).
    + intros name Hname. rewrite declare_names_lookup.
      by rewrite decide_True.
    + intros key Hkey. rewrite declare_names_lookup.
      by rewrite decide_False.
  - eexists _, _. split; [reflexivity|]. split; [reflexivity|].
    vm_compute. reflexivity.
Qed.

Lemma symbol_table_grows_witness :
  ∃ lines c', ∀ table : gmap string Z, ∃ table',
    generateAssembly
      (Node "Program"
         [Declaration_node "x";
          If_node (Node "==" [Identifier_node "x"; Number_node "1"])
                  [Declaration_node "y"]])
      (mkGenState table 7) = Done (tt, mkGenState table' c', lines) ∧
    (∀ key, is_Some (table !! key) → is_Some (table' !! key)) ∧
    table' !! "y" = Some 0%Z.
Proof.
  destruct (proj1 (proj2 (proj2 symbol_table_grows))
              "int x; if (x == 1) { int y; }" _ _ 7%Z eq_refl eq_refl)
    as (lines & c' & H).
  - vm_compute. discriminate.
  - exists lines, c'. intros table. destruct (H table) as (table' & Hg & Hk & Hd & _).
    exists table'. split; [exact Hg|]. split; [exact Hk|].
    apply Hd. vm_compute. set_solver.
Defined.

(* ================================================================= *)
(** * Further properties of the lexer *)

Lemma lex_step_app_boundary (c x : ascii) (rest s2 : list ascii) :
  is_boundary x = true →
  lex_step c (rest ++ x :: s2) = lex_step c rest.
Proof.
  unfold is_boundary. intros Hx.
  apply andb_prop in Hx as [Hx Heq]. apply andb_prop in Hx as [Hal Hdi].
  apply negb_true_iff in Hal, Hdi, Heq.
  unfold lex_step. rewrite !run_app_stop by done.
  replace (Ascii.eqb (head_char (rest ++ x :: s2)) "=")
    with (Ascii.eqb (head_char rest) "="); [done|].
  destruct rest; simpl; [by rewrite Heq | done].
Qed.

Lemma lex_app_boundary (x : ascii) (s2 : list ascii) (k : nat) :
  is_boundary x = true → length s2 < k →
  ∀ fuel s1, length s1 ≤ fuel →
    lex (fuel + k) (s1 ++ x :: s2) = lex fuel s1 ++ lex k (x :: s2).
Proof.
  intros Hx Hk. induction fuel as [|fuel IH]; intros s1 Hlen.
  - destruct s1; simpl in *; [done | lia].
  - destruct s1 as [|c rest].
    + simpl app. apply lex_fuel; simpl; lia.
    + simpl in Hlen. simpl app. cbn [Nat.add lex].
      rewrite lex_step_app_boundary by done.
      pose proof (lex_step_bounds c rest) as [Hn1 Hn2].
      rewrite <- app_assoc. f_equal.
      rewrite (app_comm_cons rest (x :: s2) c).
      rewrite drop_app_le by (simpl; lia).
      apply IH. rewrite length_drop. simpl. lia.
Qed.

(** The tokens of a text, as the reference lexer computes them. *)
Lemma tokenize_app_boundary (s1 s2 : string) (c : ascii) :
  is_boundary c = true →
  lex (String.length (s1 +:+ String c s2))
      (list_ascii_of_string (s1 +:+ String c s2)) =
  lex (String.length s1) (list_ascii_of_string s1) ++
  lex (String.length (String c s2)) (list_ascii_of_string (String c s2)).
Proof.
  intros Hc. rewrite list_ascii_app. simpl list_ascii_of_string.
  replace (String.length (s1 +:+ String c s2))
    with (String.length s1 + String.length (String c s2)).
  2:{ rewrite <- !length_list_ascii, list_ascii_app, length_app. done. }
  apply lex_app_boundary; [done | |].
  - simpl. rewrite length_list_ascii. lia.
  - by rewrite length_list_ascii.
Qed.

Lemma space_is_boundary (c : ascii) : isspace c = true → is_boundary c = true.
Proof. destruct c as [[] [] [] [] [] [] [] []]; vm_compute; congruence. Qed.

(** X1: tokenize starts afresh at every character that is not a letter, a
    digit or [=]: the tokens of a text that holds such a character are the
    tokens of what precedes it followed by the tokens of the rest, so
    nothing before the character depends on what follows it. *)
Theorem tokenize_splits_at_boundary (s1 s2 : string) (c : ascii) :
  is_boundary c = true →
  ∃ t1 t2,
    tokenize s1 = Done t1 ∧ tokenize (String c s2) = Done t2 ∧
    tokenize (s1 +:+ String c s2) = Done (t1 ++ t2).
Proof.
  intros Hc. eexists _, _.
  split; [apply tokenize_lex|]. split; [apply tokenize_lex|].
  rewrite tokenize_lex. f_equal. by apply tokenize_app_boundary.
Qed.

Lemma tokenize_splits_at_boundary_witness :
  ∃ t1 t2,
    tokenize "ab" = Done t1 ∧ tokenize ";cd" = Done t2 ∧
    tokenize "ab;cd" = Done (t1 ++ t2).
Proof. apply (tokenize_splits_at_boundary "ab" "cd" ";"). reflexivity. Defined.

(** X2: white space only separates: the tokens of a text with a white-space
    character in it are the tokens of what precedes the character followed
    by the tokens of what follows it. *)
Theorem tokenize_whitespace_separates (s1 s2 : string) (c : ascii) :
  isspace c = true →
  ∃ t1 t2,
    tokenize s1 = Done t1 ∧ tokenize s2 = Done t2 ∧
    tokenize (s1 +:+ String c s2) = Done (t1 ++ t2).
Proof.
  intros Hc. eexists _, _.
  split; [apply tokenize_lex|]. split; [apply tokenize_lex|].
  rewrite tokenize_lex. f_equal.
  rewrite tokenize_app_boundary by by apply space_is_boundary.
  f_equal. simpl. unfold lex_step. rewrite Hc. simpl. by rewrite drop_0.
Qed.

Lemma tokenize_whitespace_separates_witness :
  ∃ t1 t2,
    tokenize "int" = Done t1 ∧ tokenize "x;" = Done t2 ∧
    tokenize "int x;" = Done (t1 ++ t2).
Proof. apply (tokenize_whitespace_separates "int" "x;" " "). reflexivity. Defined.

Lemma lex_all_space :
  ∀ fuel s, forallb isspace s = true → lex fuel s = [].
Proof.
  induction fuel as [|fuel IH]; intros s Hs; [done|].
  destruct s as [|c rest]; [done|]. simpl in Hs.
  apply andb_prop in Hs as [Hc Hrest].
  cbn [lex]. unfold lex_step. rewrite Hc. simpl. rewrite drop_0. by apply IH.
Qed.

Lemma filter_not_space_nil (s : list ascii) :
  filter not_space s = [] → forallb isspace s = true.
Proof.
  induction s as [|c s IH]; [done|]. rewrite filter_cons.
  destruct (decide (not_space c)) as [Hc|Hc]; [done|].
  intros H. simpl. rewrite IH by done.
  unfold not_space in Hc. destruct (isspace c); [done|]. by destruct Hc.
Qed.

(** X3: tokenize returns no token exactly for the texts that hold white
    space only, the empty text among them. *)
Theorem tokenize_nothing_iff_blank (source : string) :
  tokenize source = Done [] ↔
  forallb isspace (list_ascii_of_string source) = true.
Proof.
  rewrite tokenize_lex. split.
  - intros [= H]. apply filter_not_space_nil.
    rewrite <- (lex_texts (String.length source))
      by (by rewrite length_list_ascii).
    by rewrite H.
  - intros H. f_equal. by apply lex_all_space.
Qed.

Lemma tokenize_nothing_iff_blank_witness : tokenize "  " = Done [].
Proof. apply (proj2 (tokenize_nothing_iff_blank "  ")). reflexivity. Defined.

Lemma run_all_id (p : ascii → bool) (l : list ascii) :
  forallb p l = true → run p l = l.
Proof.
  induction l as [|c l IH]; [done|]. simpl. intros H.
  apply andb_prop in H as [Hc Hl]. by rewrite Hc, IH.
Qed.

Lemma lex_step_alpha (c : ascii) (rest : list ascii) :
  isalpha c = true →
  lex_step c rest =
  (Some (word_token (string_of_list_ascii (c :: run isalpha rest))),
   S (length (run isalpha rest))).
Proof.
  destruct c as [[] [] [] [] [] [] [] []]; intros H; vm_compute in H;
    try discriminate; reflexivity.
Qed.

Lemma lex_step_digit (c : ascii) (rest : list ascii) :
  isdigit c = true →
  lex_step c rest =
  (Some (mkToken NUMBER (string_of_list_ascii (c :: run isdigit rest))),
   S (length (run isdigit rest))).
Proof.
  destruct c as [[] [] [] [] [] [] [] []]; intros H; vm_compute in H;
    try discriminate; reflexivity.
Qed.

(** The text of a token of tokenize, alone, gives that token back. *)
Lemma lex_single (t : Token) :
  token_ok t = true →
  lex (String.length (value t)) (list_ascii_of_string (value t)) = [t].
Proof.
  destruct t as [ty v]. unfold token_ok. cbn [type value].
  destruct ty;
    try (intros H; apply String.eqb_eq in H; subst v; reflexivity).
  - (* UNKNOWN *)
    destruct v as [|c [|]]; try done. intros H.
    cbn [String.length list_ascii_of_string lex].
    rewrite lex_step_other by done. reflexivity.
  - (* IDENTIFIER *)
    intros H. apply andb_prop in H as [H Hall].
    apply andb_prop in H as [Hint Hif].
    apply negb_true_iff in Hint, Hif.
    unfold nonempty_all in Hall.
    rewrite <- (string_of_list_ascii_of_string v) at 3.
    rewrite <- length_list_ascii.
    destruct (list_ascii_of_string v) as [|c cs] eqn:E; [done|].
    cbn [forallb] in Hall. apply andb_prop in Hall as [Hc Hcs].
    cbn [length lex]. rewrite lex_step_alpha by done. cbn [fst snd].
    rewrite run_all_id by done.
    change (drop (S (length cs)) (c :: cs)) with (drop (length cs) cs).
    assert (String c (string_of_list_ascii cs) = v) as Hv.
    { by rewrite <- (string_of_list_ascii_of_string v), E. }
    rewrite drop_all. destruct (length cs); simpl; f_equal.
    all: unfold word_token; by rewrite Hv, Hint, Hif.
  - (* NUMBER *)
    intros Hall. unfold nonempty_all in Hall.
    rewrite <- (string_of_list_ascii_of_string v) at 3.
    rewrite <- length_list_ascii.
    destruct (list_ascii_of_string v) as [|c cs] eqn:E; [done|].
    cbn [forallb] in Hall. apply andb_prop in Hall as [Hc Hcs].
    cbn [length lex]. rewrite lex_step_digit by done. cbn [fst snd].
    rewrite run_all_id by done.
    change (drop (S (length cs)) (c :: cs)) with (drop (length cs) cs).
    rewrite drop_all. by destruct (length cs).
Qed.

Lemma lex_join_tokens (tokens : list Token) :
  forallb token_ok tokens = true →
  lex (String.length (join_tokens tokens))
      (list_ascii_of_string (join_tokens tokens)) = tokens.
Proof.
  induction tokens as [|t tokens IH]; [done|]. simpl. intros H.
  apply andb_prop in H as [Ht Htokens].
  change (value t +:+ " " +:+ join_tokens tokens)
    with (value t +:+ String " " (join_tokens tokens)).
  rewrite tokenize_app_boundary by done.
  rewrite lex_single by done. simpl. f_equal.
  rewrite drop_0. by apply IH.
Qed.

(** X4: writing the texts of well-formed tokens one after the other, each
    followed by a space, and tokenizing the result gives the tokens back:
    every sequence of tokens that have the text of their kind is the
    tokenization of a text, and tokenize loses nothing but white space. *)
Theorem tokenize_join_tokens (tokens : list Token) :
  forallb token_ok tokens = true →
  tokenize (join_tokens tokens) = Done tokens.
Proof.
  intros H. rewrite tokenize_lex. f_equal. by apply lex_join_tokens.
Qed.

Lemma tokenize_join_tokens_witness :
  tokenize
    (join_tokens [mkToken IF_KEYWORD "if"; mkToken LPAREN "(";
                  mkToken IDENTIFIER "x"; mkToken EQ_OP "==";
                  mkToken NUMBER "10"; mkToken UNKNOWN "@"]) =
  Done [mkToken IF_KEYWORD "if"; mkToken LPAREN "("; mkToken IDENTIFIER "x";
        mkToken EQ_OP "=="; mkToken NUMBER "10"; mkToken UNKNOWN "@"].
Proof. apply tokenize_join_tokens. reflexivity. Defined.

(** X5: every token tokenize returns has the text of its kind: the fixed
    text for an operator, a punctuation mark or a keyword; a non-empty run
    of letters other than [int] and [if] for an identifier; a non-empty run
    of digits for a number; and one character outside all classes for an
    unknown token. *)
Theorem tokenize_token_kinds (source : string) (tokens : list Token)
    (t : Token) :
  tokenize source = Done tokens → t ∈ tokens → token_ok t = true.
Proof.
  intros Htok Ht. apply tokenize_tokens_ok in Htok.
  rewrite forallb_forall in Htok. apply Htok. by apply list_elem_of_In.
Qed.

Lemma tokenize_token_kinds_witness :
  token_ok (mkToken IDENTIFIER "inta") = true.
Proof.
  apply (tokenize_token_kinds "x = inta + 1;" _ _ eq_refl).
  vm_compute. set_solver.
Defined.

(* ================================================================= *)
(** * Further properties of the parser *)

(** X6: on the tokens of any source text parseProgram returns a Program
    node whose children are statements of the grammar (Declaration,
    Assignment over a term or one binary operation, If over an [==]
    condition and a Body of statements), or throws "Unexpected token" or
    "Expected term", or reads outside the token vector; the iteration
    bound of the model is not reached. *)
Theorem parseProgram_on_source (source : string) :
  ∃ tokens,
    tokenize source = Done tokens ∧
    match parseProgram tokens with
    | Done root => is_program root = true
    | Raise msg => parse_error msg
    | Undefined => True
    | NoFuel => False
    end.
Proof.
  exists (lex (String.length source) (list_ascii_of_string source)).
  split; [apply tokenize_lex|].
  apply parseProgram_outcome, lex_tokens_ok.
Qed.

(** ** Running the parser step by step *)

Lemma parser_bind_done {A B : Type} (m : Parser A) (k : A → Parser B)
    (pos pos1 : nat) (a : A) :
  m pos = Done (a, pos1) → (m ≫= k) pos = k a pos1.
Proof. intros H. unfold mbind, parser_bind. by rewrite H. Qed.

Lemma parser_bind_raise {A B : Type} (m : Parser A) (k : A → Parser B)
    (pos : nat) (msg : string) :
  m pos = Raise msg → (m ≫= k) pos = Raise msg.
Proof. intros H. unfold mbind, parser_bind. by rewrite H. Qed.

Section parser_steps.
Variable tokens : list Token.

Lemma token_at_pos_here (pos : nat) (t : Token) :
  tokens !! pos = Some t → token_at_pos tokens pos = Done (t, pos).
Proof. intros H. unfold token_at_pos. by rewrite H. Qed.

Lemma consume_here (pos : nat) (t : Token) (ty : TokenType) :
  tokens !! pos = Some t → type t = ty →
  consume tokens ty pos = Done (t, S pos).
Proof.
  intros H Hty. unfold consume.
  rewrite (parser_bind_done _ _ _ _ _ (token_at_pos_here _ _ H)).
  rewrite decide_True by done. unfold token_at_pos_incr. by rewrite H.
Qed.

Lemma consume_mismatch (pos : nat) (t : Token) (ty : TokenType) :
  tokens !! pos = Some t → type t ≠ ty →
  consume tokens ty pos = Raise "Unexpected token".
Proof.
  intros H Hty. unfold consume.
  rewrite (parser_bind_done _ _ _ _ _ (token_at_pos_here _ _ H)).
  by rewrite decide_False by done.
Qed.

Lemma has_at_cons (pos : nat) (t : Token) (ts : list Token) :
  has_at tokens pos (t :: ts) →
  tokens !! pos = Some t ∧ has_at tokens (S pos) ts.
Proof.
  intros H. split.
  - rewrite <- (Nat.add_0_r pos). by apply H.
  - intros i t' Hi. replace (S pos + i) with (pos + S i) by lia. by apply H.
Qed.

Lemma has_at_app (pos : nat) (ts1 ts2 : list Token) :
  has_at tokens pos (ts1 ++ ts2) →
  has_at tokens pos ts1 ∧ has_at tokens (pos + length ts1) ts2.
Proof.
  intros H. split.
  - intros i t Hi. apply H. by apply lookup_app_l_Some.
  - intros i t Hi. rewrite <- Nat.add_assoc. apply H.
    rewrite lookup_app_r by lia.
    by replace (length ts1 + i - length ts1) with i by lia.
Qed.

Lemma has_at_length (pos : nat) (ts : list Token) :
  has_at tokens pos ts → ts ≠ [] → pos + length ts ≤ length tokens.
Proof.
  intros H Hne.
  destruct (lookup_lt_is_Some_2 ts (length ts - 1)) as [t Ht].
  { destruct ts; [done | simpl; lia]. }
  apply H, lookup_lt_Some in Ht. lia.
Qed.

Lemma parseTerm_complete (pos : nat) (n : ASTNode) :
  is_term n = true → has_at tokens pos (term_tokens n) →
  parseTerm tokens pos = Done (n, S pos).
Proof.
  intros Hn H. apply is_term_inv in Hn as [text [->| ->]];
    apply has_at_cons in H as [H _]; unfold parseTerm.
  - rewrite (parser_bind_done _ _ _ _ _ (token_at_pos_here _ _ H)).
    rewrite decide_True by done.
    by rewrite (parser_bind_done _ _ _ _ _ (consume_here _ _ NUMBER H eq_refl)).
  - rewrite (parser_bind_done _ _ _ _ _ (token_at_pos_here _ _ H)).
    rewrite decide_False by done.
    rewrite (parser_bind_done _ _ _ _ _ (token_at_pos_here _ _ H)).
    rewrite decide_True by done. unfold parseIdentifier.
    by rewrite (parser_bind_done _ _ _ _ _
                  (consume_here _ _ IDENTIFIER H eq_refl)).
Qed.

Lemma term_tokens_length (n : ASTNode) :
  is_term n = true → length (term_tokens n) = 1.
Proof. intros Hn. by apply is_term_inv in Hn as [text [->| ->]]. Qed.

Lemma parseCondition_complete (pos : nat) (n : ASTNode) :
  is_condition n = true → has_at tokens pos (condition_tokens n) →
  parseCondition tokens pos = Done (n, pos + 3).
Proof.
  destruct n as [op [|l [|r [|]]]]; simpl; try done. intros Hn H.
  apply andb_prop in Hn as [Hn Hr]. apply andb_prop in Hn as [Hop Hl].
  apply String.eqb_eq in Hop. subst op.
  apply has_at_app in H as [H1 H2]. rewrite term_tokens_length in H2 by done.
  apply has_at_cons in H2 as [H2 H3].
  unfold parseCondition.
  rewrite (parser_bind_done _ _ _ _ _ (parseTerm_complete _ _ Hl H1)).
  replace (S pos) with (pos + 1) by lia.
  rewrite (parser_bind_done _ _ _ _ _ (consume_here _ _ EQ_OP H2 eq_refl)).
  rewrite (parser_bind_done _ _ _ _ _ (parseTerm_complete _ _ Hr H3)).
  unfold mret, parser_ret. do 2 f_equal. lia.
Qed.

Lemma expression_tokens_length (e : ASTNode) :
  is_expression e = true →
  length (expression_tokens e) = 1 ∨ length (expression_tokens e) = 3.
Proof.
  unfold is_expression. intros H. apply orb_prop in H as [H|H].
  - left. by apply is_term_inv in H as [text [->| ->]].
  - right. destruct e as [op [|l [|r [|]]]]; simpl in H; try done.
    apply andb_prop in H as [H Hr]. apply andb_prop in H as [_ Hl].
    simpl. rewrite length_app. simpl. by rewrite !term_tokens_length.
Qed.

(** An expression followed by a token that is neither [+] nor [-]. *)
Lemma parseExpression_complete (pos : nat) (e : ASTNode) (t : Token) :
  is_expression e = true →
  has_at tokens pos (expression_tokens e ++ [t]) →
  type t ≠ PLUS_OP → type t ≠ MINUS_OP →
  parseExpression tokens pos = Done (e, pos + length (expression_tokens e)).
Proof.
  unfold is_expression. intros He H Hp Hm.
  apply has_at_app in H as [H Ht]. apply has_at_cons in Ht as [Ht _].
  apply orb_prop in He as [He|He].
  - assert (expression_tokens e = term_tokens e) as E.
    { by apply is_term_inv in He as [text [->| ->]]. }
    rewrite E in *. rewrite term_tokens_length in * by done.
    unfold parseExpression.
    rewrite (parser_bind_done _ _ _ _ _ (parseTerm_complete _ _ He H)).
    replace (S pos) with (pos + 1) by lia.
    rewrite (parser_bind_done _ _ _ _ _ (token_at_pos_here _ _ Ht)).
    rewrite decide_False by (intros [?|?]; done). done.
  - destruct e as [op [|l [|r [|]]]]; simpl in He; try done.
    apply andb_prop in He as [He Hr]. apply andb_prop in He as [Hop Hl].
    simpl in H. apply has_at_app in H as [H1 H2].
    rewrite term_tokens_length in H2 by done.
    apply has_at_cons in H2 as [H2 H3].
    unfold parseExpression.
    rewrite (parser_bind_done _ _ _ _ _ (parseTerm_complete _ _ Hl H1)).
    replace (S pos) with (pos + 1) by lia.
    rewrite (parser_bind_done _ _ _ _ _ (token_at_pos_here _ _ H2)).
    assert (type (operator_token op) = PLUS_OP ∨
            type (operator_token op) = MINUS_OP) as Hty.
    { unfold operator_token. simpl. destruct (String.eqb op "+"); auto. }
    rewrite decide_True by done.
    rewrite (parser_bind_done _ _ _ _ _ (token_at_pos_here _ _ H2)).
    rewrite (parser_bind_done _ _ _ _ _ (consume_here _ _ _ H2 eq_refl)).
    rewrite (parser_bind_done _ _ _ _ _ (parseTerm_complete _ _ Hr H3)).
    unfold mret, parser_ret. simpl. rewrite length_app. simpl.
    rewrite !term_tokens_length by done. do 2 f_equal. lia.
Qed.
End parser_steps.

Lemma statement_tokens_first (s : ASTNode) :
  is_statement s = true →
  ∃ t rest, statement_tokens s = t :: rest ∧ is_stray t = false.
Proof.
  destruct s as [tag cs]. simpl.
  destruct (String.eqb tag "Declaration").
  { destruct cs as [|target [|]]; try done. intros _. by eexists _, _. }
  destruct (String.eqb tag "Assignment").
  { destruct cs as [|target [|expr [|]]]; try done. intros H.
    apply andb_prop in H as [H _]. apply is_identifier_inv in H as [name ->].
    by eexists _, _. }
  destruct (String.eqb tag "If"); [|done].
  destruct cs as [|condition [|[body stmts] [|]]]; try done. intros _.
  by eexists _, _.
Qed.

Lemma parseStatement_S (tokens : list Token) (fuel : nat) :
  parseStatement tokens (S fuel) =
  (t ← token_at_pos tokens;
   if decide (type t = INT_KEYWORD) then parseDeclaration tokens
   else
     t ← token_at_pos tokens;
     if decide (type t = IF_KEYWORD) then
       parseIfStatement tokens (parseStatement tokens fuel) fuel
     else parseAssignment tokens).
Proof. reflexivity. Qed.

Lemma parseBody_unfold (tokens : list Token) (stmt : Parser ASTNode)
    (fuel : nat) (body : list ASTNode) :
  parseBody tokens stmt fuel body =
  (t ← token_at_pos tokens;
   if decide (type t ≠ RBRACE) then
     match fuel with
     | O => no_fuel
     | S fuel' => s ← stmt; parseBody tokens stmt fuel' (body ++ [s])
     end
   else mret body).
Proof. by destruct fuel. Qed.

Lemma statements_count (stmts : list ASTNode) :
  forallb is_statement stmts = true →
  length stmts ≤ length (statements_tokens stmts).
Proof.
  induction stmts as [|s stmts IH]; [done|]. simpl. intros H.
  apply andb_prop in H as [Hs H]. unfold statements_tokens in *. simpl.
  rewrite length_app.
  destruct (statement_tokens_first s Hs) as (t & rest & -> & _).
  simpl. specialize (IH H). lia.
Qed.

Section parser_complete.
Variable tokens : list Token.

Lemma parseDeclaration_complete (pos : nat) (name : string) :
  has_at tokens pos (statement_tokens (Declaration_node name)) →
  parseDeclaration tokens pos = Done (Declaration_node name, pos + 3).
Proof.
  simpl. intros H.
  apply has_at_cons in H as [H1 H]. apply has_at_cons in H as [H2 H].
  apply has_at_cons in H as [H3 _]. unfold parseDeclaration.
  rewrite (parser_bind_done _ _ _ _ _ (consume_here _ _ _ _ H1 eq_refl)).
  rewrite (parser_bind_done _ _ _ _ _ (consume_here _ _ _ _ H2 eq_refl)).
  rewrite (parser_bind_done _ _ _ _ _ (consume_here _ _ _ _ H3 eq_refl)).
  unfold mret, parser_ret. do 2 f_equal. lia.
Qed.

Lemma parseAssignment_complete (pos : nat) (name : string) (expr : ASTNode) :
  is_expression expr = true →
  has_at tokens pos (statement_tokens (Assignment_node name expr)) →
  parseAssignment tokens pos =
  Done (Assignment_node name expr,
        pos + length (statement_tokens (Assignment_node name expr))).
Proof.
  simpl. intros He H.
  apply has_at_cons in H as [H1 H]. apply has_at_cons in H as [H2 H].
  pose proof (proj2 (has_at_app _ _ _ _ H)) as H4.
  apply has_at_cons in H4 as [H4 _].
  unfold parseAssignment.
  rewrite (parser_bind_done _ _ _ _ _ (consume_here _ _ _ _ H1 eq_refl)).
  rewrite (parser_bind_done _ _ _ _ _ (consume_here _ _ _ _ H2 eq_refl)).
  rewrite (parser_bind_done _ _ _ _ _
             (parseExpression_complete _ _ _ _ He H ltac:(done) ltac:(done))).
  rewrite (parser_bind_done _ _ _ _ _ (consume_here _ _ _ _ H4 eq_refl)).
  unfold mret, parser_ret. rewrite length_app. simpl.
  do 2 f_equal. lia.
Qed.

Lemma parseBody_complete (f : nat) (stmts : list ASTNode) :
  Forall (parses_back tokens) stmts →
  forallb is_statement stmts = true →
  length (statements_tokens stmts) ≤ f →
  ∀ n body pos,
    length stmts ≤ n →
    has_at tokens pos (statements_tokens stmts ++ [mkToken RBRACE "}"]) →
    parseBody tokens (parseStatement tokens f) n body pos =
    Done (body ++ stmts, pos + length (statements_tokens stmts)).
Proof.
  induction 1 as [|s stmts Hs _ IH]; intros Hok Hf n body pos Hn H.
  - simpl in H. apply has_at_cons in H as [H _].
    rewrite parseBody_unfold.
    rewrite (parser_bind_done _ _ _ _ _ (token_at_pos_here _ _ _ H)).
    rewrite decide_False by (intros Hne; by apply Hne).
    unfold mret, parser_ret. rewrite app_nil_r. simpl. do 2 f_equal. lia.
  - simpl in Hok. apply andb_prop in Hok as [Hsok Hok].
    unfold statements_tokens in *. simpl in *.
    rewrite length_app in Hf.
    rewrite <- app_assoc in H. apply has_at_app in H as [H1 H2].
    destruct (statement_tokens_first s Hsok) as (t & rest & E & Hstray).
    assert (tokens !! pos = Some t) as Ht.
    { rewrite E in H1. by apply has_at_cons in H1 as [H1 _]. }
    destruct n as [|n]; [lia|].
    rewrite parseBody_unfold.
    rewrite (parser_bind_done _ _ _ _ _ (token_at_pos_here _ _ _ Ht)).
    rewrite decide_True by (intros Heq; unfold is_stray in Hstray;
                            by rewrite Heq in Hstray).
    rewrite (parser_bind_done _ _ _ _ _ (Hs pos f ltac:(lia) H1)).
    rewrite IH; [| done | lia | lia | done].
    rewrite <- app_assoc, length_app. simpl. do 2 f_equal. lia.
Qed.

Lemma parseStatement_complete (s : ASTNode) :
  is_statement s = true → parses_back tokens s.
Proof.
  induction s as [tag cs IH1 IH2] using ASTNode_deep_ind.
  intros Hs. simpl in Hs.
  destruct (String.eqb tag "Declaration") eqn:Edecl.
  { apply String.eqb_eq in Edecl. subst tag.
    destruct cs as [|target [|]]; try done.
    apply is_identifier_inv in Hs as [name ->].
    intros pos [|fuel] Hfuel H; [simpl in Hfuel; lia|].
    pose proof (proj1 (has_at_cons _ _ _ _ H)) as Ht.
    rewrite parseStatement_S.
    rewrite (parser_bind_done _ _ _ _ _ (token_at_pos_here _ _ _ Ht)).
    rewrite decide_True by done.
    by apply parseDeclaration_complete. }
  destruct (String.eqb tag "Assignment") eqn:Eassign.
  { apply String.eqb_eq in Eassign. subst tag.
    destruct cs as [|target [|expr [|]]]; try done.
    apply andb_prop in Hs as [Ht He].
    apply is_identifier_inv in Ht as [name ->].
    intros pos [|fuel] Hfuel H; [simpl in Hfuel; lia|].
    pose proof (proj1 (has_at_cons _ _ _ _ H)) as Ht.
    rewrite parseStatement_S.
    rewrite (parser_bind_done _ _ _ _ _ (token_at_pos_here _ _ _ Ht)).
    rewrite decide_False by done.
    rewrite (parser_bind_done _ _ _ _ _ (token_at_pos_here _ _ _ Ht)).
    rewrite decide_False by done.
    by apply (parseAssignment_complete pos name expr). }
  destruct (String.eqb tag "If") eqn:Eif; [|done].
  apply String.eqb_eq in Eif. subst tag.
  destruct cs as [|condition [|[tagb stmts] [|]]]; try done.
  apply andb_prop in Hs as [H Hstmts]. apply andb_prop in H as [Hcond Hb].
  apply String.eqb_eq in Hb. subst tagb.
  apply Forall_cons in IH2 as [_ IH2]. apply Forall_cons in IH2 as [IH2 _].
  simpl in IH2.
  assert (Forall (parses_back tokens) stmts) as Hback.
  { rewrite forallb_forall in Hstmts. rewrite Forall_forall in IH2 |- *.
    intros s Hs. apply IH2; [done|]. apply Hstmts. by apply list_elem_of_In. }
  assert (length (condition_tokens condition) = 3) as Hclen.
  { destruct (is_condition_inv _ Hcond) as (? & ? & ? & ? & ->). done. }
  intros pos [|fuel] Hfuel H; [simpl in Hfuel; lia|].
  cbn [statement_tokens String.eqb Ascii.eqb Bool.eqb] in H, Hfuel |- *.
  fold (statements_tokens stmts) in *.
  cbn [length] in Hfuel. rewrite !length_app in Hfuel. cbn [length] in Hfuel.
  rewrite length_app in Hfuel. cbn [length] in Hfuel.
  pose proof H as H0.
  apply has_at_cons in H as [H1 H]. apply has_at_cons in H as [H2 H].
  apply has_at_app in H as [H3 H]. rewrite Hclen in H.
  apply has_at_cons in H as [H4 H]. apply has_at_cons in H as [H5 H].
  pose proof (proj2 (has_at_app _ _ _ _ H)) as H6.
  apply has_at_cons in H6 as [H6 _].
  rewrite parseStatement_S.
  rewrite (parser_bind_done _ _ _ _ _ (token_at_pos_here _ _ _ H1)).
  rewrite decide_False by done.
  rewrite (parser_bind_done _ _ _ _ _ (token_at_pos_here _ _ _ H1)).
  rewrite decide_True by done.
  unfold parseIfStatement.
  rewrite (parser_bind_done _ _ _ _ _ (consume_here _ _ _ _ H1 eq_refl)).
  rewrite (parser_bind_done _ _ _ _ _ (consume_here _ _ _ _ H2 eq_refl)).
  rewrite (parser_bind_done _ _ _ _ _
             (parseCondition_complete _ _ _ Hcond H3)).
  rewrite (parser_bind_done _ _ _ _ _ (consume_here _ _ _ _ H4 eq_refl)).
  rewrite (parser_bind_done _ _ _ _ _ (consume_here _ _ _ _ H5 eq_refl)).
  pose proof (statements_count stmts Hstmts) as Hcount.
  assert (length (statements_tokens stmts) ≤ fuel) as Hf by lia.
  assert (length stmts ≤ fuel) as Hn by lia.
  rewrite (parser_bind_done _ _ _ _ _
             (parseBody_complete fuel stmts Hback Hstmts Hf fuel [] _ Hn H)).
  rewrite (parser_bind_done _ _ _ _ _ (consume_here _ _ _ _ H6 eq_refl)).
  unfold mret, parser_ret. cbn [app length].
  rewrite !length_app. cbn [length]. rewrite length_app. cbn [length].
  rewrite Hclen. do 2 f_equal. lia.
Qed.
End parser_complete.

Lemma parseProgram_loop_S (tokens : list Token) (fuel : nat)
    (root_children : list ASTNode) (pos : nat) :
  parseProgram_loop tokens (S fuel) root_children pos =
  if pos <? length tokens then
    (stmt ← parseStatement tokens (length tokens);
     parseProgram_loop tokens fuel (root_children ++ [stmt])) pos
  else Done (Node "Program" root_children, pos).
Proof. reflexivity. Qed.

Lemma parseProgram_loop_end (tokens : list Token) (fuel : nat)
    (root_children : list ASTNode) (pos : nat) :
  length tokens ≤ pos →
  parseProgram_loop tokens fuel root_children pos =
  Done (Node "Program" root_children, pos).
Proof.
  intros H. apply Nat.ltb_ge in H.
  destruct fuel; simpl; by rewrite H.
Qed.

(** The loop of parseProgram over the tokens of statements: it appends
    the statements and goes on behind their tokens. *)
Lemma parseProgram_loop_statements (tokens : list Token)
    (stmts : list ASTNode) :
  forallb is_statement stmts = true →
  ∀ n root_children pos,
    has_at tokens pos (statements_tokens stmts) →
    parseProgram_loop tokens (length stmts + n) root_children pos =
    parseProgram_loop tokens n (root_children ++ stmts)
      (pos + length (statements_tokens stmts)).
Proof.
  induction stmts as [|s stmts IH]; intros Hok n root_children pos H.
  - simpl. by rewrite app_nil_r, Nat.add_0_r.
  - simpl in Hok. apply andb_prop in Hok as [Hs Hok].
    unfold statements_tokens in *. cbn [map concat] in H |- *.
    cbn [length Nat.add].
    apply has_at_app in H as [H1 H2].
    destruct (statement_tokens_first s Hs) as (t & rest & E & _).
    pose proof (has_at_length _ _ _ H1) as Hlen.
    rewrite E in Hlen at 1. specialize (Hlen ltac:(done)).
    rewrite parseProgram_loop_S.
    replace (pos <? length tokens) with true
      by (symmetry; apply Nat.ltb_lt; rewrite E in Hlen; simpl in Hlen; lia).
    rewrite (parser_bind_done _ _ _ _ _
               (parseStatement_complete tokens s Hs pos (length tokens)
                  ltac:(lia) H1)).
    rewrite IH by done.
    rewrite <- app_assoc, length_app. simpl. f_equal. lia.
Qed.

(** X7: the parser accepts the grammar.  For every Program tree of
    statements of the grammar, parsing the tokens of its concrete syntax
    ([int x ;], [x = e ;], [if ( c ) { ... }]) returns that tree: no
    well-formed program is rejected, none makes the parser read outside
    the tokens, and parsing is a left inverse of writing a tree out. *)
Theorem parseProgram_complete (root : ASTNode) :
  is_program root = true →
  parseProgram (program_tokens root) = Done root.
Proof.
  destruct root as [tag stmts]. simpl. intros H.
  apply andb_prop in H as [Htag Hstmts].
  apply String.eqb_eq in Htag. subst tag.
  unfold parseProgram, program_tokens. simpl.
  pose proof (statements_count stmts Hstmts) as Hcount.
  replace (length (statements_tokens stmts))
    with (length stmts + (length (statements_tokens stmts) - length stmts))
    at 1 by lia.
  rewrite parseProgram_loop_statements; [|done|].
  - simpl. by rewrite parseProgram_loop_end by lia.
  - intros i t Hi. done.
Qed.

Lemma parseProgram_complete_witness :
  parseProgram
    (program_tokens
       (Node "Program"
          [Declaration_node "x";
           If_node (Node "==" [Identifier_node "x"; Number_node "1"])
             [Assignment_node "y"
                (Node "-" [Identifier_node "x"; Number_node "3"])]])) =
  Done (Node "Program"
          [Declaration_node "x";
           If_node (Node "==" [Identifier_node "x"; Number_node "1"])
             [Assignment_node "y"
                (Node "-" [Identifier_node "x"; Number_node "3"])]]).
Proof. apply parseProgram_complete. reflexivity. Defined.

Lemma parser_bind_undefined {A B : Type} (m : Parser A) (k : A → Parser B)
    (pos : nat) :
  m pos = Undefined → (m ≫= k) pos = Undefined.
Proof. intros H. unfold mbind, parser_bind. by rewrite H. Qed.

Lemma consume_past_end (tokens : list Token) (ty : TokenType) (pos : nat) :
  length tokens ≤ pos → consume tokens ty pos = Undefined.
Proof.
  intros H. unfold consume, token_at_pos, mbind, parser_bind.
  by rewrite lookup_ge_None_2.
Qed.

(** After the tokens of well-formed statements, parseProgram does what
    parseStatement does at the next token when that fails. *)
Lemma parseProgram_after_statements (stmts : list ASTNode) (t : Token)
    (rest : list Token) :
  forallb is_statement stmts = true →
  parseProgram (statements_tokens stmts ++ t :: rest) =
  '(root, _) ←
    (stmt ← parseStatement (statements_tokens stmts ++ t :: rest)
              (length (statements_tokens stmts ++ t :: rest));
     parseProgram_loop (statements_tokens stmts ++ t :: rest)
       (length (statements_tokens stmts ++ t :: rest) - length stmts - 1)
       (stmts ++ [stmt]))
      (length (statements_tokens stmts));
  Done root.
Proof.
  intros Hstmts. unfold parseProgram.
  set (tokens := statements_tokens stmts ++ t :: rest).
  pose proof (statements_count stmts Hstmts) as Hcount.
  assert (length tokens = length (statements_tokens stmts) + S (length rest))
    as Hlen by (unfold tokens; rewrite length_app; done).
  replace (length tokens)
    with (length stmts + S (length tokens - length stmts - 1)) at 1 by lia.
  rewrite parseProgram_loop_statements; [|done|].
  2:{ intros i t' Hi. unfold tokens. by apply lookup_app_l_Some. }
  rewrite parseProgram_loop_S. simpl.
  by replace (length (statements_tokens stmts) <? length tokens) with true
    by (symmetry; apply Nat.ltb_lt; lia).
Qed.

Lemma parseStatement_stray (tokens : list Token) (fuel pos : nat) (t : Token) :
  tokens !! pos = Some t → is_stray t = true →
  parseStatement tokens (S fuel) pos = Raise "Unexpected token".
Proof.
  intros Hhere Ht. unfold is_stray in Ht.
  rewrite parseStatement_S.
  rewrite (parser_bind_done _ _ _ _ _ (token_at_pos_here _ _ _ Hhere)).
  rewrite decide_False by (intros E; by rewrite E in Ht).
  rewrite (parser_bind_done _ _ _ _ _ (token_at_pos_here _ _ _ Hhere)).
  rewrite decide_False by (intros E; by rewrite E in Ht).
  unfold parseAssignment. apply parser_bind_raise.
  apply (consume_mismatch _ _ t); [done|].
  intros E. by rewrite E in Ht.
Qed.

(** A statement cut short after its first token, the last of the
    tokens. *)
Lemma parseStatement_cut_short (tokens : list Token) (fuel pos : nat)
    (t : Token) :
  tokens !! pos = Some t → is_stray t = false → length tokens = S pos →
  parseStatement tokens (S fuel) pos = Undefined.
Proof.
  intros Hhere Ht Hlen. unfold is_stray in Ht.
  rewrite parseStatement_S.
  rewrite (parser_bind_done _ _ _ _ _ (token_at_pos_here _ _ _ Hhere)).
  destruct (decide (type t = INT_KEYWORD)) as [Hint|Hint].
  { unfold parseDeclaration.
    rewrite (parser_bind_done _ _ _ _ _ (consume_here _ _ _ _ Hhere Hint)).
    apply parser_bind_undefined, consume_past_end. lia. }
  rewrite (parser_bind_done _ _ _ _ _ (token_at_pos_here _ _ _ Hhere)).
  destruct (decide (type t = IF_KEYWORD)) as [Hif|Hif].
  { unfold parseIfStatement.
    rewrite (parser_bind_done _ _ _ _ _ (consume_here _ _ _ _ Hhere Hif)).
    apply parser_bind_undefined, consume_past_end. lia. }
  assert (type t = IDENTIFIER) as Hid by (by destruct (type t)).
  unfold parseAssignment.
  rewrite (parser_bind_done _ _ _ _ _ (consume_here _ _ _ _ Hhere Hid)).
  apply parser_bind_undefined, consume_past_end. lia.
Qed.

(** X8: a token with which no statement starts (anything but [int], [if]
    and an identifier), standing where a statement is expected after any
    number of well-formed statements, makes parseProgram throw
    "Unexpected token", whatever follows it: the statements parsed before
    it are discarded. *)
Theorem stray_token_aborts_parse (stmts : list ASTNode) (t : Token)
    (rest : list Token) :
  forallb is_statement stmts = true →
  is_stray t = true →
  parseProgram (statements_tokens stmts ++ t :: rest) =
  Raise "Unexpected token".
Proof.
  intros Hstmts Ht. rewrite parseProgram_after_statements by done.
  assert ((statements_tokens stmts ++ t :: rest)
            !! length (statements_tokens stmts) = Some t) as Hhere
    by (by apply list_lookup_middle).
  rewrite length_app. cbn [length]. rewrite Nat.add_succ_r.
  rewrite (parser_bind_raise _ _ _ "Unexpected token"); [done|].
  by apply (parseStatement_stray _ _ _ t).
Qed.

Lemma stray_token_aborts_parse_witness :
  parseProgram
    (statements_tokens [Declaration_node "x"; Assignment_node "x" (Number_node "5")]
     ++ mkToken RBRACE "}" :: [mkToken INT_KEYWORD "int"]) =
  Raise "Unexpected token".
Proof. apply stray_token_aborts_parse; reflexivity. Defined.

(** X9: one token left over after any number of well-formed statements
    never gives a tree.  If no statement starts with it, parseProgram
    throws "Unexpected token"; if it is [int], [if] or an identifier, the
    statement it starts is cut short and the parser reads the token
    behind the last one, outside the vector. *)
Theorem trailing_token_never_parses (stmts : list ASTNode) (t : Token) :
  forallb is_statement stmts = true →
  parseProgram (statements_tokens stmts ++ [t]) =
  if is_stray t then Raise "Unexpected token" else Undefined.
Proof.
  intros Hstmts. rewrite parseProgram_after_statements by done.
  assert ((statements_tokens stmts ++ [t])
            !! length (statements_tokens stmts) = Some t) as Hhere
    by (by apply list_lookup_middle).
  rewrite length_app. cbn [length]. rewrite Nat.add_succ_r.
  destruct (is_stray t) eqn:Ht.
  - rewrite (parser_bind_raise _ _ _ "Unexpected token"); [done|].
    by apply (parseStatement_stray _ _ _ t).
  - rewrite (parser_bind_undefined _ _ _); [done|].
    apply (parseStatement_cut_short _ _ _ t); [done | done |].
    rewrite length_app. simpl. lia.
Qed.

Lemma trailing_token_never_parses_witness :
  parseProgram
    (statements_tokens [Declaration_node "x"] ++ [mkToken IDENTIFIER "x"]) =
  Undefined.
Proof.
  apply (trailing_token_never_parses [Declaration_node "x"]
           (mkToken IDENTIFIER "x")).
  reflexivity.
Defined.

(** ** The cursor stays inside the tokens *)

Lemma parser_bind_inv {A B : Type} (m : Parser A) (k : A → Parser B)
    (pos pos' : nat) (b : B) :
  (m ≫= k) pos = Done (b, pos') →
  ∃ a pos1, m pos = Done (a, pos1) ∧ k a pos1 = Done (b, pos').
Proof.
  unfold mbind, parser_bind.
  destruct (m pos) as [[a pos1]| | |]; try done. eauto.
Qed.

Section cursor.
Variable tokens : list Token.

Lemma within_bind {A B : Type} (m : Parser A) (k : A → Parser B) :
  stays_within tokens m → (∀ a, stays_within tokens (k a)) →
  stays_within tokens (m ≫= k).
Proof.
  intros Hm Hk pos b pos' Hpos H.
  apply parser_bind_inv in H as (a & pos1 & H1 & H2).
  eapply Hk; [|exact H2]. eapply Hm; [exact Hpos | exact H1].
Qed.

Lemma within_ret {A : Type} (a : A) : stays_within tokens (mret a).
Proof. intros pos a' pos' Hpos [= _ <-]. done. Qed.

Lemma within_throw {A : Type} (msg : string) :
  stays_within tokens (throw msg : Parser A).
Proof. intros pos a pos' Hpos H. discriminate. Qed.

Lemma within_token_at_pos : stays_within tokens (token_at_pos tokens).
Proof.
  intros pos a pos' Hpos. unfold token_at_pos.
  destruct (tokens !! pos); [|done]. by intros [= _ <-].
Qed.

Lemma within_consume (ty : TokenType) : stays_within tokens (consume tokens ty).
Proof.
  unfold consume. apply within_bind; [apply within_token_at_pos|].
  intros t. destruct (decide (type t = ty)); [|apply within_throw].
  intros pos a pos' Hpos. unfold token_at_pos_incr.
  destruct (tokens !! pos) eqn:E; [|done]. intros [= _ <-].
  by apply lookup_lt_Some in E.
Qed.

Lemma within_parseTerm : stays_within tokens (parseTerm tokens).
Proof.
  unfold parseTerm, parseIdentifier.
  repeat (first [ apply within_consume
                | apply within_token_at_pos | apply within_ret
                | apply within_throw | apply within_bind; [|intros ?]
                | destruct (decide _) ]).
Qed.

Lemma within_parseExpression : stays_within tokens (parseExpression tokens).
Proof.
  unfold parseExpression.
  repeat (first [ apply within_consume | apply within_parseTerm
                | apply within_token_at_pos | apply within_ret
                | apply within_throw | apply within_bind; [|intros ?]
                | destruct (decide _) ]).
Qed.

Lemma within_parseBody (stmt : Parser ASTNode) :
  stays_within tokens stmt →
  ∀ fuel body, stays_within tokens (parseBody tokens stmt fuel body).
Proof.
  intros Hstmt. induction fuel as [|fuel IH]; intros body;
    rewrite parseBody_unfold;
    (apply within_bind; [apply within_token_at_pos|]); intros t;
    (destruct (decide (type t ≠ RBRACE)); [|apply within_ret]).
  - intros pos a pos' _ H. discriminate.
  - apply within_bind; [done|]. intros s. apply IH.
Qed.

Lemma within_parseStatement :
  ∀ fuel, stays_within tokens (parseStatement tokens fuel).
Proof.
  induction fuel as [|fuel IH].
  - intros pos a pos' _ H. discriminate.
  - rewrite parseStatement_S.
    unfold parseDeclaration, parseAssignment, parseIfStatement,
      parseCondition.
    repeat (first [ apply within_consume
                  | apply within_parseTerm | apply within_parseExpression
                  | apply within_parseBody; exact IH
                  | apply within_token_at_pos | apply within_ret
                  | apply within_throw | apply within_bind; [|intros ?]
                  | destruct (decide _) ]).
Qed.

Lemma parseProgram_loop_cursor :
  ∀ fuel root_children pos root pos',
    pos ≤ length tokens →
    parseProgram_loop tokens fuel root_children pos = Done (root, pos') →
    pos' = length tokens ∧ node_value root = "Program".
Proof.
  induction fuel as [|fuel IH]; intros root_children pos root pos' Hpos.
  - simpl. destruct (pos <? length tokens) eqn:E; [done|].
    apply Nat.ltb_ge in E. intros [= <- <-]. split; [lia | done].
  - rewrite parseProgram_loop_S.
    destruct (pos <? length tokens) eqn:E.
    + intros H. apply parser_bind_inv in H as (s & pos1 & H1 & H2).
      apply (IH (root_children ++ [s]) pos1); [|done].
      by apply (within_parseStatement _ _ _ _ Hpos H1).
    + apply Nat.ltb_ge in E. intros [= <- <-]. split; [lia | done].
Qed.
End cursor.

(** X10: no parsing routine moves the cursor beyond the end of the tokens:
    a statement parsed from a position inside the token vector ends
    inside it, and when the loop of parseProgram returns, the cursor is
    exactly at the end, so every token belongs to one of the statements
    of the Program node. *)
Theorem parser_cursor_ends_at_end (tokens : list Token) :
  (∀ fuel, stays_within tokens (parseStatement tokens fuel)) ∧
  (∀ root pos',
     parseProgram_loop tokens (length tokens) [] 0 = Done (root, pos') →
     pos' = length tokens ∧ node_value root = "Program").
Proof.
  split; [apply within_parseStatement|].
  intros root pos'. apply parseProgram_loop_cursor. lia.
Qed.

Lemma parser_cursor_ends_at_end_witness :
  3 = length [mkToken INT_KEYWORD "int"; mkToken IDENTIFIER "x";
              mkToken SEMICOLON ";"] ∧
  node_value (Node "Program" [Declaration_node "x"]) = "Program".
Proof.
  refine (proj2 (parser_cursor_ends_at_end
                   [mkToken INT_KEYWORD "int"; mkToken IDENTIFIER "x";
                    mkToken SEMICOLON ";"]) _ 3 _).
  reflexivity.
Defined.

(* ================================================================= *)
(** * Further properties of the code generator *)

(** ** On any tree *)

Lemma sound_ret {A : Type} (a : A) : gen_sound (mret a : Gen A).
Proof. intros st. simpl. split; [lia | done]. Qed.

Lemma sound_emit (line : string) : gen_sound (emit line).
Proof. intros st. simpl. split; [lia | done]. Qed.

Lemma sound_undefined {A : Type} : gen_sound (undefined : Gen A).
Proof. by intros st. Qed.

Lemma sound_declare (name : string) : gen_sound (declare name).
Proof.
  intros st. simpl. split; [lia|]. intros key Hkey.
  destruct (decide (key = name)) as [->|Hne].
  - rewrite lookup_insert_eq. by eexists.
  - by rewrite lookup_insert_ne.
Qed.

Lemma sound_fresh_label : gen_sound fresh_label.
Proof.
  intros st. unfold fresh_label.
  destruct (decide (labelCounter st = INT_MAX)); [done|].
  simpl. split; [lia | done].
Qed.

Lemma sound_lift {A : Type} (o : Outcome A) :
  match o with Raise _ | NoFuel => False | _ => True end →
  gen_sound (lift o).
Proof.
  intros Ho st. unfold lift. destruct o; simpl; try done.
Qed.

Lemma sound_leaf_text (n : ASTNode) : gen_sound (lift (leaf_text n)).
Proof.
  apply sound_lift. unfold leaf_text. by destruct (children n) as [|[] ?].
Qed.

Lemma sound_bind {A B : Type} (m : Gen A) (k : A → Gen B) :
  gen_sound m → (∀ a, gen_sound (k a)) → gen_sound (m ≫= k).
Proof.
  intros Hm Hk st. unfold mbind, gen_bind.
  specialize (Hm st). destruct (m st) as [[[a st1] l1]| | |]; try done.
  specialize (Hk a st1). destruct (k a st1) as [[[b st2] l2]| | |]; try done.
  destruct Hm as [Hc1 Ht1]. destruct Hk as [Hc2 Ht2].
  split; [lia | auto].
Qed.

Lemma sound_for_each (gen : ASTNode → Gen unit) (l : list ASTNode) :
  Forall (λ n, gen_sound (gen n)) l → gen_sound (for_each gen l).
Proof.
  induction 1 as [|n l Hn _ IH]; simpl; [apply sound_ret|].
  apply sound_bind; [done | by intros _].
Qed.

Lemma sound_generateAssembly (node : ASTNode) :
  gen_sound (generateAssembly node).
Proof.
  induction node as [tag cs IH1 IH2] using ASTNode_deep_ind.
  cbn [generateAssembly].
  destruct (String.eqb tag "Program"); [by apply sound_for_each|].
  destruct (String.eqb tag "Declaration").
  { destruct cs as [|[? [|[] ?]] ?];
      first [apply sound_undefined | apply sound_declare]. }
  destruct (String.eqb tag "Assignment").
  { destruct cs as [|[? [|[varName ?] ?]] [|expr ?]];
      try apply sound_undefined.
    apply sound_bind; [|intros _; apply sound_emit].
    destruct (String.eqb (node_value expr) "Number").
    { apply sound_bind; [apply sound_leaf_text | intros ?; apply sound_emit]. }
    destruct (String.eqb (node_value expr) "+"); [|apply sound_ret].
    destruct expr as [op [|lhs [|rhs operands]]]; try apply sound_undefined.
    apply sound_bind; [|intros _].
    - destruct (String.eqb (node_value lhs) "Identifier");
        (apply sound_bind; [apply sound_leaf_text | intros ?; apply sound_emit]).
    - destruct (String.eqb (node_value rhs) "Identifier");
        (apply sound_bind; [apply sound_leaf_text | intros ?; apply sound_emit]). }
  destruct (String.eqb tag "If").
  { destruct cs as [|condition [|[? body] ?]]; try apply sound_undefined.
    apply Forall_cons in IH1 as [Hcond _].
    apply Forall_cons in IH2 as [_ IH2]. apply Forall_cons in IH2 as [IH2 _].
    simpl in IH2.
    apply sound_bind; [apply sound_fresh_label | intros label].
    apply sound_bind; [exact Hcond | intros _].
    apply sound_bind; [apply sound_emit | intros _].
    apply sound_bind; [by apply sound_for_each | intros _].
    apply sound_emit. }
  destruct (String.eqb tag "==").
  { destruct cs as [|[? [|[leftVar ?] ?]] [|[? [|[rightVal ?] ?]] ?]];
      try apply sound_undefined.
    apply sound_bind; [apply sound_emit | intros _; apply sound_emit]. }
  apply sound_ret.
Qed.

(** X11: generateAssembly never throws, on any tree: it returns, or (where
    a child it indexes is missing, or the label counter is at [INT_MAX])
    its behaviour is undefined.  Whenever it returns, the label counter
    has not decreased and every key of the symbol table is still
    present.  A node whose tag is none of Program, Declaration,
    Assignment, If and [==] (a Body, Identifier or Number node, a leaf) is
    passed over in silence: no line, no change of state, whatever its
    children. *)
Theorem generateAssembly_never_throws :
  (∀ node st,
     match generateAssembly node st with
     | Done (_, st', _) =>
         (labelCounter st ≤ labelCounter st')%Z ∧
         ∀ key, is_Some (symbolTable st !! key) →
                is_Some (symbolTable st' !! key)
     | Undefined => True
     | Raise _ | NoFuel => False
     end) ∧
  (∀ tag cs st,
     tag ≠ "Program" → tag ≠ "Declaration" → tag ≠ "Assignment" →
     tag ≠ "If" → tag ≠ "==" →
     generateAssembly (Node tag cs) st = Done (tt, st, [])).
Proof.
  split; [intros node; apply sound_generateAssembly|].
  intros tag cs st H1 H2 H3 H4 H5.
  apply String.eqb_neq in H1, H2, H3, H4, H5.
  cbn [generateAssembly]. by rewrite H1, H2, H3, H4, H5.
Qed.

Lemma generateAssembly_never_throws_witness :
  generateAssembly (Node "Body" [Declaration_node "x"]) initial_state =
  Done (tt, initial_state, []).
Proof.
  apply (proj2 generateAssembly_never_throws); discriminate.
Defined.

(** ** The shape of a listing *)

Lemma Block_app (l1 l2 : list string) :
  Block l1 → Block l2 → Block (l1 ++ l2).
Proof.
  intros H1 H2. induction H1 as [|line rest Hl _ IH|k body rest Hb _ _ IH].
  - done.
  - simpl. by apply Block_plain.
  - simpl. rewrite <- app_assoc. simpl. by apply Block_if.
Qed.

Lemma Block_plain_lines (lines : list string) :
  forallb is_plain_line lines = true → Block lines.
Proof.
  induction lines as [|line lines IH]; simpl; [constructor|].
  intros H. apply andb_prop in H as [Hl H]. apply Block_plain; auto.
Qed.

Lemma gen_Assignment_expression_plain (target : string) (expr : ASTNode) :
  is_expression expr = true →
  ∃ lines,
    forallb is_plain_line lines = true ∧
    ∀ st, generateAssembly (Assignment_node target expr) st = Done (tt, st, lines).
Proof.
  unfold is_expression. intros H. apply orb_prop in H as [H|H].
  - apply is_term_inv in H as [text [->| ->]]; eexists; split;
      [|intros st; apply gen_Assignment_Number | |
       intros st; apply gen_Assignment_Identifier]; done.
  - destruct expr as [op [|l [|r [|]]]]; simpl in H; try done.
    apply andb_prop in H as [H Hr]. apply andb_prop in H as [Hop Hl].
    apply orb_prop in Hop as [Hop|Hop]; apply String.eqb_eq in Hop; subst op.
    + apply is_term_operand in Hl as (i1 & t1 & ->).
      apply is_term_operand in Hr as (i2 & t2 & ->).
      eexists. split; [|intros st; apply gen_Assignment_plus].
      by destruct i1, i2.
    + eexists. split; [|intros st; apply gen_Assignment_minus]. done.
Qed.

(** Induction on the listings of statements: a property of lines that
    holds of plain lines, is kept by concatenation and by wrapping a body
    into the lines of an If node holds of the lines of every statement. *)
Section listing_induction.
Variable P : Z → Z → list string → Prop.
Hypothesis P_plain :
  ∀ c lines, forallb is_plain_line lines = true → P c c lines.
Hypothesis P_app :
  ∀ c c1 c2 l1 l2,
    (c ≤ c1)%Z → (c1 ≤ c2)%Z → P c c1 l1 → P c1 c2 l2 → P c c2 (l1 ++ l2).
Hypothesis P_if :
  ∀ c c' a b body,
    (c + 1 ≤ c')%Z →
    is_plain_line a = true → is_plain_line b = true → P (c + 1)%Z c' body →
    P c c' ([a; b; jnz_line c] ++ body ++ [label_line c]).

Lemma gen_lines_plain (g : Gen unit) (lines : list string) :
  forallb is_plain_line lines = true →
  (∀ st, g st = Done (tt, st, lines)) →
  gen_lines P g [] 0.
Proof.
  intros Hl Hg c Hc. exists lines. rewrite Z.add_0_r.
  split; [by apply P_plain | intros table; apply Hg].
Qed.

Lemma gen_lines_bind (g1 g2 : Gen unit) (n1 n2 : list string) (k1 k2 : Z) :
  (0 ≤ k1)%Z → (0 ≤ k2)%Z →
  gen_lines P g1 n1 k1 → gen_lines P g2 n2 k2 →
  gen_lines P (g1 ≫= λ _, g2) (n1 ++ n2) (k1 + k2).
Proof.
  intros Hk1 Hk2 H1 H2 c Hc.
  destruct (H1 c) as (l1 & Hl1 & E1); [lia|].
  destruct (H2 (c + k1)%Z) as (l2 & Hl2 & E2); [lia|].
  exists (l1 ++ l2). split.
  { replace (c + (k1 + k2))%Z with (c + k1 + k2)%Z by lia.
    apply (P_app c (c + k1)%Z); [lia | lia | done | done]. }
  intros table. rewrite (gen_bind_done _ _ _ _ _ _ _ _ _ (E1 table) (E2 _)).
  unfold declare_names. rewrite fold_left_app.
  by replace (c + (k1 + k2))%Z with (c + k1 + k2)%Z by lia.
Qed.

Lemma gen_lines_for_each (stmts : list ASTNode) :
  Forall (λ s, gen_lines P (generateAssembly s) (declared s) (if_statements s))
         stmts →
  gen_lines P (for_each generateAssembly stmts)
            (concat (map declared stmts)) (sum_over if_statements stmts).
Proof.
  induction 1 as [|s stmts Hs _ IH]; simpl.
  - by apply (gen_lines_plain _ []).
  - apply gen_lines_bind; [apply if_statements_nonneg | | done | done].
    apply sum_over_nonneg, Forall_forall. intros x _.
    apply if_statements_nonneg.
Qed.

Lemma gen_lines_statement (n : ASTNode) :
  is_statement n = true →
  gen_lines P (generateAssembly n) (declared n) (if_statements n).
Proof.
  induction n as [tag cs IH1 IH2] using ASTNode_deep_ind.
  intros Hs. simpl in Hs.
  destruct (String.eqb tag "Declaration") eqn:Edecl.
  { apply String.eqb_eq in Edecl. subst tag.
    destruct cs as [|target [|]]; try done.
    apply is_identifier_inv in Hs as [name ->].
    change (gen_lines P (generateAssembly (Declaration_node name)) [name] 0).
    intros c Hc. exists []. rewrite Z.add_0_r.
    split; [by apply P_plain | done]. }
  destruct (String.eqb tag "Assignment") eqn:Eassign.
  { apply String.eqb_eq in Eassign. subst tag.
    destruct cs as [|target [|expr [|]]]; try done.
    apply andb_prop in Hs as [Ht He].
    apply is_identifier_inv in Ht as [name ->].
    destruct (gen_Assignment_expression_plain name expr He)
      as (lines & Hl & Hg).
    change (gen_lines P (generateAssembly (Assignment_node name expr)) [] 0).
    by apply (gen_lines_plain _ lines). }
  destruct (String.eqb tag "If") eqn:Eif; [|done].
  apply String.eqb_eq in Eif. subst tag.
  destruct cs as [|condition [|[tagb stmts] [|]]]; try done.
  apply andb_prop in Hs as [H Hstmts]. apply andb_prop in H as [Hcond Hb].
  apply Forall_cons in IH2 as [_ IH2]. apply Forall_cons in IH2 as [IH2 _].
  simpl in IH2.
  assert (gen_lines P (for_each generateAssembly stmts)
            (concat (map declared stmts)) (sum_over if_statements stmts))
    as Hbody.
  { apply gen_lines_for_each. rewrite forallb_forall in Hstmts.
    rewrite Forall_forall in IH2 |- *. intros s Hs.
    apply IH2; [done|]. apply Hstmts. by apply list_elem_of_In. }
  destruct (is_condition_inv _ Hcond) as (tagl & textl & tagr & textr & ->).
  apply String.eqb_eq in Hb. subst tagb.
  assert (0 ≤ sum_over if_statements stmts)%Z as Hnn.
  { apply sum_over_nonneg, Forall_forall. intros x _.
    apply if_statements_nonneg. }
  change (gen_lines P
            (generateAssembly
               (If_node (Node "==" [Node tagl [Node textl []];
                                    Node tagr [Node textr []]]) stmts))
            (concat (map declared stmts))
            (1 + sum_over if_statements stmts)).
  intros c Hc.
  destruct (Hbody (c + 1)%Z) as (body & HP & Hgen); [lia|].
  assert (c ≠ INT_MAX) as Hne by lia.
  eexists. split.
  2:{ intros table. rewrite (gen_If _ _ _ _ _ _ _ _ _ _ Hne (Hgen table)).
      rewrite Z.add_assoc. reflexivity. }
  apply (P_if c _ ("  MOV A, " +:+ textl) ("  CPI " +:+ textr) body);
    [lia | done | done |].
  by replace (c + (1 + sum_over if_statements stmts))%Z
    with (c + 1 + sum_over if_statements stmts)%Z by lia.
Qed.

Lemma gen_lines_program (root : ASTNode) :
  is_program root = true →
  gen_lines P (generateAssembly root) (declared root) (if_statements root).
Proof.
  destruct root as [tag stmts]. simpl. intros H.
  apply andb_prop in H as [Htag Hstmts].
  apply String.eqb_eq in Htag. subst tag.
  change (gen_lines P (for_each generateAssembly stmts)
            (concat (map declared stmts)) (sum_over if_statements stmts)).
  apply gen_lines_for_each. rewrite forallb_forall in Hstmts.
  apply Forall_forall. intros s Hs.
  apply gen_lines_statement, Hstmts. by apply list_elem_of_In.
Qed.
End listing_induction.

Lemma jnz_line_inj (k1 k2 : Z) : jnz_line k1 = jnz_line k2 → k1 = k2.
Proof.
  unfold jnz_line. intros H. injection H as H.
  rewrite !append_empty_l in H. by apply (inj pretty) in H.
Qed.

Lemma jnz_line_not_plain (k : Z) : is_plain_line (jnz_line k) = false.
Proof. reflexivity. Qed.

Lemma label_line_not_jnz (k k' : Z) : label_line k ≠ jnz_line k'.
Proof.
  intros H. apply (f_equal is_label_line) in H.
  change (true = false) in H. discriminate.
Qed.

(** In a nested listing every jump is followed, further down, by the
    definition of its label. *)
Lemma Block_jump_target (lines : list string) (k : Z) :
  Block lines → In (jnz_line k) lines →
  ∃ l1 l2 l3, lines = l1 ++ jnz_line k :: l2 ++ label_line k :: l3.
Proof.
  induction 1 as [|line rest Hl _ IH|k0 body rest _ IHb _ IHr].
  - intros [].
  - intros [->|Hin]; [by rewrite jnz_line_not_plain in Hl|].
    destruct (IH Hin) as (l1 & l2 & l3 & ->).
    by exists (line :: l1), l2, l3.
  - intros [Heq|Hin].
    + apply jnz_line_inj in Heq. subst k0. by exists [], body, rest.
    + apply in_app_or in Hin as [Hin|[Heq|Hin]].
      * destruct (IHb Hin) as (l1 & l2 & l3 & ->).
        exists (jnz_line k0 :: l1), l2, (l3 ++ label_line k0 :: rest).
        simpl. f_equal. rewrite <- app_assoc. f_equal. simpl. f_equal.
        by rewrite <- app_assoc.
      * by apply label_line_not_jnz in Heq.
      * destruct (IHr Hin) as (l1 & l2 & l3 & ->).
        exists (jnz_line k0 :: body ++ label_line k0 :: l1), l2, l3.
        simpl. rewrite <- app_assoc. done.
Qed.

(** X12: the listing of a source text (whose labels fit in [int]) is
    properly nested: it is a sequence of indented instruction lines and of
    blocks made of [JNZ LABELk], a nested listing and [LABELk:].  In
    particular every jump is followed, further down in the listing, by the
    definition of the label it names. *)
Theorem listing_is_nested (source : string) (tokens : list Token)
    (root : ASTNode) :
  tokenize source = Done tokens →
  parseProgram tokens = Done root →
  (if_statements root ≤ INT_MAX)%Z →
  ∃ lines,
    assembly_listing source = Done lines ∧
    Block lines ∧
    ∀ k, In (jnz_line k) lines →
         ∃ l1 l2 l3, lines = l1 ++ jnz_line k :: l2 ++ label_line k :: l3.
Proof.
  intros Htok Hparse Hrange.
  pose proof (parseProgram_outcome tokens (tokenize_tokens_ok _ _ Htok)) as Hroot.
  rewrite Hparse in Hroot.
  destruct (gen_lines_program (λ _ _, Block)) with
    (root := root) (c := 0%Z) as (lines & HB & Hgen);
    [| | | done | lia |].
  { intros _. apply Block_plain_lines. }
  { intros _ _ _ l1 l2 _ _. apply Block_app. }
  { intros c c' a b body _ Ha Hb Hbody. simpl.
    apply Block_plain; [done|]. apply Block_plain; [done|].
    apply Block_if; [done | constructor]. }
  exists lines. split; [|split; [done|]].
  - unfold assembly_listing. rewrite Htok. simpl. rewrite Hparse. simpl.
    unfold initial_state. by rewrite Hgen.
  - intros k. by apply Block_jump_target.
Qed.

Lemma listing_is_nested_witness :
  ∃ lines,
    assembly_listing "if (a == 1) { if (b == 2) { c = 3; } d = 4; }"
      = Done lines ∧ Block lines.
Proof.
  destruct (listing_is_nested
              "if (a == 1) { if (b == 2) { c = 3; } d = 4; }" _ _
              eq_refl eq_refl)
    as (lines & Hl & HB & _).
  - vm_compute. discriminate.
  - exists lines. split; [exact Hl | exact HB].
Defined.

(** ** The order of the labels *)

Lemma plain_line_not_jnz (line : string) :
  is_plain_line line = true → is_jnz_line line = false.
Proof.
  destruct line as [|a line]; [done|].
  destruct a as [[] [] [] [] [] [] [] []]; try done.
  destruct line as [|b line]; [done|].
  destruct b as [[] [] [] [] [] [] [] []]; try done.
  destruct line as [|c rest]; [done|].
  simpl. by destruct (Ascii.eqb c "J").
Qed.

Lemma jump_lines_plain (lines : list string) :
  forallb is_plain_line lines = true → jump_lines lines = [].
Proof.
  induction lines as [|line lines IH]; [done|]. simpl. intros H.
  apply andb_prop in H as [Hl H].
  by rewrite (plain_line_not_jnz _ Hl), IH.
Qed.

Lemma jump_lines_app (l1 l2 : list string) :
  jump_lines (l1 ++ l2) = jump_lines l1 ++ jump_lines l2.
Proof. apply List.filter_app. Qed.

(** X13: the jumps of the listing of a source text (whose labels fit in
    [int]) name the labels 0, 1, 2, ... in this order, one for each
    if-statement: the label counter starts at 0 and an if-statement takes
    the next number before its body is translated. *)
Theorem listing_jumps_in_order (source : string) (tokens : list Token)
    (root : ASTNode) :
  tokenize source = Done tokens →
  parseProgram tokens = Done root →
  (if_statements root ≤ INT_MAX)%Z →
  ∃ lines,
    assembly_listing source = Done lines ∧
    jump_lines lines = map jnz_line (seqZ 0 (if_statements root)).
Proof.
  intros Htok Hparse Hrange.
  pose proof (parseProgram_outcome tokens (tokenize_tokens_ok _ _ Htok)) as Hroot.
  rewrite Hparse in Hroot.
  destruct (gen_lines_program
              (λ c c' lines, jump_lines lines = map jnz_line (seqZ c (c' - c))))
    with (root := root) (c := 0%Z) as (lines & HJ & Hgen);
    [| | | done | lia |].
  - intros c lines Hl. rewrite Z.sub_diag. by apply jump_lines_plain.
  - intros c c1 c2 l1 l2 H1 H2 E1 E2.
    rewrite jump_lines_app, E1, E2, <- map_app. f_equal.
    replace (c2 - c)%Z with ((c1 - c) + (c2 - c1))%Z by lia.
    rewrite seqZ_app by lia. do 2 f_equal. lia.
  - intros c c' a b body Hc Ha Hb E.
    change ([a; b; jnz_line c] ++ body ++ [label_line c])
      with ([a; b] ++ [jnz_line c] ++ body ++ [label_line c]).
    rewrite !jump_lines_app, E.
    rewrite (jump_lines_plain [a; b]) by (simpl; by rewrite Ha, Hb).
    rewrite (seqZ_cons c) by lia. simpl.
    rewrite app_nil_r. do 3 f_equal; lia.
  - exists lines. split.
    + unfold assembly_listing. rewrite Htok. simpl. rewrite Hparse. simpl.
      unfold initial_state. by rewrite Hgen.
    + by rewrite Z.add_0_l, Z.sub_0_r in HJ.
Qed.

Lemma listing_jumps_in_order_witness :
  ∃ lines,
    assembly_listing "if (a == 1) { if (b == 2) { } } if (c == 3) { }"
      = Done lines ∧
    jump_lines lines = map jnz_line (seqZ 0 3).
Proof.
  destruct (listing_jumps_in_order
              "if (a == 1) { if (b == 2) { } } if (c == 3) { }" _ _
              eq_refl eq_refl)
    as (lines & Hl & HJ).
  - vm_compute. discriminate.
  - exists lines. split; [exact Hl | exact HJ].
Defined.

(* ================================================================= *)
(** * Properties of the printer and of main *)




(** What main does, case by case. *)
Lemma main_cases (file : option (list string)) :
  match main file with
  | Done run =>
      exit_code run = 0%Z ∧
      ((stderr run = "" ∧
        ∃ root lines,
          is_program root = true ∧
          stdout run =
            (read_source file).2 +:+ printAST root 0 +:+ endl
            +:+ "Assembly Code:" +:+ endl +:+ lines_text lines) ∨
       (∃ msg,
          parse_error msg ∧
          stderr run = "Error: " +:+ msg +:+ endl ∧
          stdout run = (read_source file).2))
  | Undefined => True
  | Raise _ | NoFuel => False
  end.
Proof.
  unfold main. destruct (read_source file) as [source out0].
  rewrite tokenize_lex. simpl.
  pose proof (parseProgram_outcome _
                (lex_tokens_ok (String.length source)
                   (list_ascii_of_string source))) as Hparse.
  destruct (parseProgram _) as [root|msg| |]; try done.
  - pose proof (sound_generateAssembly root initial_state) as Hgen.
    destruct (generateAssembly root initial_state) as [[[[] st] lines]| | |];
      simpl; try done.
    split; [done|]. left. split; [done|]. by exists root, lines.
  - simpl. split; [done|]. right. by exists msg.
Qed.

(** X15: main never lets an exception escape and, whenever it returns,
    returns 0.  Then either the error stream is empty and the standard
    output is the note about the file (if it could not be opened), the
    printed tree of a Program of the grammar, the header and a listing; or
    the error stream holds the message of a parse error and the standard
    output holds nothing but that note.  A file that cannot be opened is
    treated as an empty program. *)
Theorem main_outcomes (file : option (list string)) :
  match main file with
  | Done run =>
      exit_code run = 0%Z ∧
      ((stderr run = "" ∧
        ∃ root lines,
          is_program root = true ∧
          stdout run =
            (read_source file).2 +:+ printAST root 0 +:+ endl
            +:+ "Assembly Code:" +:+ endl +:+ lines_text lines) ∨
       (∃ msg,
          parse_error msg ∧
          stderr run = "Error: " +:+ msg +:+ endl ∧
          stdout run = (read_source file).2))
  | Undefined => True
  | Raise _ | NoFuel => False
  end ∧
  main None =
    Done (mkRun ("Can't open the input file." +:+ "Program" +:+ endl +:+ endl
                 +:+ "Assembly Code:" +:+ endl) "" 0%Z).
Proof. split; [apply main_cases | reflexivity]. Qed.


